(** * Battery History Format 2 parser (package parseutils)

    A shallow embedding of [parseutils/battery_history_format_v2.go]:
    the line grammar, the three extraction passes over the remainder of
    a line, the projection to a CSV entry and the format detector,
    together with the properties the specification states about them.

    Go strings are byte sequences; they are modelled by [string] (a list
    of 8-bit [ascii] characters).  Go maps are reference values that may
    be nil; they are modelled by [option (gmap string V)], [None] being
    the nil map.  A run-time panic is modelled by [None] in the option
    monad. *)

From Stdlib Require Import ZArith Ascii String List Bool Lia DecimalString.
From stdpp Require Import base option list gmap strings.

Local Open Scope string_scope.

(** ** Bytes and character classes *)

Module Chr.

Definition code (c : ascii) : N := N_of_ascii c.

Definition between (lo hi c : ascii) : bool :=
  ((code lo <=? code c) && (code c <=? code hi))%N.

Definition same (a c : ascii) : bool := Ascii.eqb a c.

Definition tab : ascii := "009"%char.
Definition nl : ascii := "010"%char.
Definition vt : ascii := "011"%char.
Definition ff : ascii := "012"%char.
Definition cr : ascii := "013"%char.
Definition sp : ascii := " "%char.
Definition dquote : ascii := "034"%char.

(** [\d]: RE2 classes are ASCII-only. *)
Definition digit (c : ascii) : bool := between "0" "9" c.

(** [\w] is [[0-9A-Za-z_]]. *)
Definition word (c : ascii) : bool :=
  between "0" "9" c || between "A" "Z" c || between "a" "z" c || same "_" c.

(** [\s] is [[\t\n\f\r ]] (no vertical tab). *)
Definition space (c : ascii) : bool :=
  same tab c || same nl c || same ff c || same cr c || same sp c.

(** [[0-9a-f]] *)
Definition hex (c : ascii) : bool := between "0" "9" c || between "a" "f" c.

(** [.] without the s flag: anything but a newline. *)
Definition any (c : ascii) : bool := negb (same nl c).

(** [[^,\s]] *)
Definition value (c : ascii) : bool := negb (same "," c || space c).

(** Any byte but the double quote. *)
Definition unquoted (c : ascii) : bool := negb (same dquote c).

(** [[+-]] *)
Definition sign (c : ascii) : bool := same "+" c || same "-" c.

End Chr.

(** ** Regular expressions

    The fragment of RE2 syntax the package uses: anchors, literals,
    character classes, greedy repetition of a class, capture groups and
    concatenation.  Every class above is a set of ASCII bytes or the
    complement of one, and an ASCII byte is always a rune of its own in
    Go's UTF-8 decoding, so matching byte by byte finds the same
    matches as matching rune by rune. *)

Inductive regex : Type :=
| Eps
| Bol                          (* ^ : beginning of text *)
| Eol                          (* $ : end of text *)
| Lit (c : ascii)
| Cls (p : ascii -> bool)
| Plus (p : ascii -> bool)     (* [p]+ *)
| Star (p : ascii -> bool)     (* [p]* *)
| Group (r : regex)
| Cat (r1 r2 : regex).

Definition cat (rs : list regex) : regex := foldr Cat Eps rs.

Definition lit (s : string) : regex := cat (map Lit (list_ascii_of_string s)).

(** [\d{2}], [\d{3}] *)
Definition digits (n : nat) : regex := cat (repeat (Cls Chr.digit) n).

Module Regexp.

(** Captures are collected as groups close, most recent first. *)
Definition caps : Type := list string.

(** A continuation receives the beginning-of-text flag, the rest of
    the input and the captures. *)
Definition kont (A : Type) : Type := bool -> string -> caps -> option A.

(** The bytes of [s] consumed when [s'] is what remains of it. *)
Definition taken (s s' : string) : string :=
  substring 0 (String.length s - String.length s') s.

(** Greedy repetition: as many bytes of the class as possible first,
    one fewer when the continuation fails (leftmost-first matching). *)
Fixpoint greedy {A} (p : ascii -> bool) (b : bool) (s : string) (cs : caps)
    (k : kont A) : option A :=
  match s with
  | String c s' =>
      if p c then
        match greedy p false s' cs k with
        | Some x => Some x
        | None => k b s cs
        end
      else k b s cs
  | EmptyString => k b s cs
  end.

Fixpoint run {A} (r : regex) (b : bool) (s : string) (cs : caps)
    (k : kont A) : option A :=
  match r with
  | Eps => k b s cs
  | Bol => if b then k b s cs else None
  | Eol => match s with EmptyString => k b s cs | String _ _ => None end
  | Lit a =>
      match s with
      | String c s' => if Ascii.eqb a c then k false s' cs else None
      | EmptyString => None
      end
  | Cls p =>
      match s with
      | String c s' => if p c then k false s' cs else None
      | EmptyString => None
      end
  | Plus p =>
      match s with
      | String c s' => if p c then greedy p false s' cs k else None
      | EmptyString => None
      end
  | Star p => greedy p b s cs k
  | Group r' => run r' b s cs (fun b' s' cs' => k b' s' (taken s s' :: cs'))
  | Cat r1 r2 => run r1 b s cs (fun b' s' cs' => run r2 b' s' cs' k)
  end.

(** One match attempt at the current position: the submatches
    (whole match first, then the groups in order) and the rest of the
    input.  The patterns of the package have no nested groups, so
    groups close in the order they are numbered. *)
Definition submatches (cs : caps) : list string :=
  match cs with
  | whole :: groups => whole :: rev groups
  | [] => []
  end.

Definition exec (r : regex) (b : bool) (s : string) : option (list string * string) :=
  run (Group r) b s [] (fun _ s' cs => Some (submatches cs, s')).

(** Leftmost match: try the current position, then the next one. *)
Fixpoint search (r : regex) (b : bool) (s : string) : option (list string) :=
  match exec r b s with
  | Some (m, _) => Some m
  | None =>
      match s with
      | String _ s' => search r false s'
      | EmptyString => None
      end
  end.

(** [FindStringSubmatch]: nil (the empty slice) when nothing matches. *)
Definition FindStringSubmatch (r : regex) (s : string) : list string :=
  match search r true s with
  | Some m => m
  | None => []
  end.

Definition MatchString (r : regex) (s : string) : bool :=
  match search r true s with
  | Some _ => true
  | None => false
  end.

(** All successive non-overlapping matches with their start offsets.
    [skip] counts the bytes of the previous match still to be passed
    over.  None of the package's patterns matches the empty string, so
    the library's rule for empty matches never applies. *)
Fixpoint scan (r : regex) (b : bool) (skip : nat) (pos : nat) (s : string)
    : list (nat * list string) :=
  match s with
  | EmptyString => []
  | String _ s' =>
      match skip with
      | S n => scan r false n (S pos) s'
      | O =>
          match exec r b s with
          | Some (m, rest) =>
              (pos, m) :: scan r false (String.length s - String.length rest - 1) (S pos) s'
          | None => scan r false 0 (S pos) s'
          end
      end
  end.

Definition FindAllStringSubmatchIndex (r : regex) (s : string) : list (nat * list string) :=
  scan r true 0 0 s.

(** [FindAllStringSubmatch(s, -1)] *)
Definition FindAllStringSubmatch (r : regex) (s : string) : list (list string) :=
  map snd (FindAllStringSubmatchIndex r s).

End Regexp.

(** ** The package's patterns *)

(** [^(\d{2}-\d{2})\s+(\d{2}:\d{2}:\d{2}\.\d{3})\s+(\d+)\s+([0-9a-f]+)\s+(.* )$]
    (written with a blank before the last parenthesis). *)
Definition historyLinePatternV2 : regex :=
  cat [ Bol;
        Group (cat [digits 2; lit "-"; digits 2]);
        Plus Chr.space;
        Group (cat [digits 2; lit ":"; digits 2; lit ":"; digits 2; lit "."; digits 3]);
        Plus Chr.space;
        Group (Plus Chr.digit);
        Plus Chr.space;
        Group (Plus Chr.hex);
        Plus Chr.space;
        Group (Star Chr.any);
        Eol ].

(** [(\w+)=([^,\s]+)] *)
Definition keyValuePattern : regex :=
  cat [ Group (Plus Chr.word); lit "="; Group (Plus Chr.value) ].

(** [([+-])(\w+)] *)
Definition stateTransitionPattern : regex :=
  cat [ Group (Cls Chr.sign); Group (Plus Chr.word) ].

(** [wake_reason=\d+:Q([^Q]+)Q], where Q stands for the double quote. *)
Definition wakeReasonPattern : regex :=
  cat [ lit "wake_reason="; Plus Chr.digit; lit ":"; Lit Chr.dquote;
        Group (Plus Chr.unquoted); Lit Chr.dquote ].

(** ** The Go library functions the package calls *)

Module strings.

(** The table [asciiSpace] of package strings. *)
Definition asciiSpace (c : ascii) : bool :=
  Chr.same Chr.tab c || Chr.same Chr.nl c || Chr.same Chr.vt c
  || Chr.same Chr.ff c || Chr.same Chr.cr c || Chr.same Chr.sp c.

Definition bytes (l : list nat) : string :=
  string_of_list_ascii (map ascii_of_nat l).

(** The UTF-8 encodings of the runes for which [unicode.IsSpace]
    holds: the six ASCII ones, U+0085, U+00A0, U+1680, U+2000 to
    U+200A, U+2028, U+2029, U+202F, U+205F and U+3000. *)
Definition spaceRunes : list string :=
  map bytes
    ([ [9]; [10]; [11]; [12]; [13]; [32]; [194; 133]; [194; 160]; [225; 154; 128] ]
     ++ map (fun n => [226; 128; n]) (seq 128 11)
     ++ [ [226; 128; 168]; [226; 128; 169]; [226; 128; 175]; [226; 129; 159];
          [227; 128; 128] ])%list.

(** Width in bytes of the rune of [table] that [s] starts with, 0 when
    there is none. *)
Fixpoint runeWidth (table : list string) (s : string) : nat :=
  match table with
  | [] => 0
  | t :: table' => if String.prefix t s then String.length t else runeWidth table' s
  end.

Fixpoint trimLeading (table : list string) (skip : nat) (s : string) : string :=
  match s with
  | EmptyString => EmptyString
  | String _ s' =>
      match skip with
      | S n => trimLeading table n s'
      | O =>
          match runeWidth table s with
          | O => s
          | S w => trimLeading table w s'
          end
      end
  end.

Definition reverse (s : string) : string :=
  string_of_list_ascii (rev (list_ascii_of_string s)).

(** [TrimSpace]: leading white-space runes are cut, then trailing
    ones.  An invalid or incomplete encoding decodes to U+FFFD, which
    is not white space, so comparing byte prefixes and suffixes with
    the encodings above is the rune-wise test. *)
Definition TrimSpace (s : string) : string :=
  reverse (trimLeading (map reverse spaceRunes) 0 (reverse (trimLeading spaceRunes 0 s))).

Definition HasPrefix (s prefix : string) : bool := String.prefix prefix s.

(** [Index]: offset of the first occurrence of [substr] in [s], -1
    when there is none. *)
Fixpoint Index (s substr : string) : Z :=
  if String.prefix substr s then 0%Z
  else
    match s with
    | EmptyString => (-1)%Z
    | String _ s' =>
        let i := Index s' substr in
        if (i <? 0)%Z then (-1)%Z else (i + 1)%Z
    end.

Definition Contains (s substr : string) : bool := (0 <=? Index s substr)%Z.

(** [Split] at a one-byte separator. *)
Fixpoint Split (s : string) (sep : ascii) : list string :=
  match s with
  | EmptyString => [EmptyString]
  | String c s' =>
      if Ascii.eqb c sep then EmptyString :: Split s' sep
      else
        match Split s' sep with
        | l :: ls => String c l :: ls
        | [] => [String c EmptyString]
        end
  end.

Definition Join (elems : list string) (sep : string) : string := String.concat sep elems.

End strings.

(** [len(s)] as an int. *)
Definition len (s : string) : Z := Z.of_nat (String.length s).

(** [s[i]]; an index out of range panics. *)
Definition byteAt (s : string) (i : Z) : option ascii :=
  if (i <? 0)%Z then None else String.get (Z.to_nat i) s.

(** [m[i]] for the submatches of a match: the library returns one
    string per group of the pattern, so the indices the package uses
    are always in range. *)
Definition sub (m : list string) (i : nat) : string := nth i m EmptyString.

Module strconv.

Definition digitVal (c : ascii) : Z := (Z.of_N (Chr.code c) - 48)%Z.

Fixpoint readDigits (acc : Z) (s : string) : option Z :=
  match s with
  | EmptyString => Some acc
  | String c s' =>
      if Chr.digit c then readDigits (10 * acc + digitVal c)%Z s' else None
  end.

(** [ParseUint(s, 10, _)] without the size limit: a number over the
    limit is a range error there, and stays one in [ParseInt], whose
    cutoff is lower. *)
Definition ParseUint (s : string) : option Z :=
  match s with
  | EmptyString => None
  | String _ _ => readDigits 0 s
  end.

(** [ParseInt(s, 10, bitSize)]: [None] when the error is not nil. *)
Definition ParseInt (s : string) (bitSize : Z) : option Z :=
  match s with
  | EmptyString => None
  | String c s' =>
      let neg := Chr.same "-" c in
      let body := if Chr.same "+" c || Chr.same "-" c then s' else s in
      match ParseUint body with
      | None => None
      | Some un =>
          let cutoff := (2 ^ (bitSize - 1))%Z in
          if negb neg && (cutoff <=? un)%Z then None
          else if neg && (cutoff <? un)%Z then None
          else Some (if neg then (- un)%Z else un)
      end
  end.

End strconv.

(** The conversion [int32(v)] of an int64. *)
Definition int32 (v : Z) : Z := ((v + 2 ^ 31) mod 2 ^ 32 - 2 ^ 31)%Z.

(** [fmt.Sprintf] of the verb [%d]. *)
Definition fmt_d (v : Z) : string := NilZero.string_of_int (Z.to_int v).

Module time.

(** A time as its civil fields in its own location. *)
Record Time : Type := Date {
  year : Z; month : Z; day : Z;
  hour : Z; minute : Z; second : Z; nanosecond : Z
}.

(** The zero value of [time.Time]. *)
Definition zero : Time := Date 1 1 1 0 0 0 0.

Definition isLeap (y : Z) : bool :=
  ((y mod 4 =? 0) && (negb (y mod 100 =? 0) || (y mod 400 =? 0)))%Z.

Definition daysIn (m y : Z) : Z :=
  (if m =? 2 then (if isLeap y then 29 else 28)
   else if (m =? 4) || (m =? 6) || (m =? 9) || (m =? 11) then 30
   else 31)%Z.

(** Two digits, as [getnum] reads them under a fixed width. *)
Definition num2 (s : string) : option (Z * string) :=
  match s with
  | String a (String b rest) =>
      if Chr.digit a && Chr.digit b
      then Some ((10 * strconv.digitVal a + strconv.digitVal b)%Z, rest)
      else None
  | _ => None
  end.

Definition expect (a : ascii) (s : string) : option string :=
  match s with
  | String c rest => if Ascii.eqb a c then Some rest else None
  | EmptyString => None
  end.

(** [time.Parse] with the layout [2006-01-02 15:04:05.000], on values
    of the shape [dddd-dd-dd dd:dd:dd.ddd] that the line pattern
    guarantees (any other value is reported as an error here; the
    parser never passes one).  The fields are range-checked as the
    library does: month, hour, minute and second while reading, the
    day of the month at the end. *)
Definition Parse (value : string) : option Time :=
  '(y1, v) ← num2 value;
  '(y2, v) ← num2 v;
  let year := (100 * y1 + y2)%Z in
  v ← expect "-" v;
  '(month, v) ← num2 v;
  if ((month <=? 0) || (12 <? month))%Z then None else
  v ← expect "-" v;
  '(day, v) ← num2 v;
  v ← expect " " v;
  '(hour, v) ← num2 v;
  if (24 <=? hour)%Z then None else
  v ← expect ":" v;
  '(min, v) ← num2 v;
  if (60 <=? min)%Z then None else
  v ← expect ":" v;
  '(sec, v) ← num2 v;
  if (60 <=? sec)%Z then None else
  v ← expect "." v;
  '(ms1, v) ← num2 v;
  match v with
  | String c EmptyString =>
      if Chr.digit c then
        let nsec := ((10 * ms1 + strconv.digitVal c) * 1000000)%Z in
        if ((day <? 1) || (daysIn month year <? day))%Z then None
        else Some (Date year month day hour min sec nsec)
      else None
  | _ => None
  end.

End time.

(** ** The entry *)

Record BatteryHistoryV2Entry : Type := mkEntry {
  Timestamp : time.Time;
  TimestampMs : Z;
  BatteryPercent : Z;
  Voltage : Z;
  Temperature : Z;
  ChargeMicroAh : Z;
  Status : string;
  Health : string;
  PlugType : string;
  DataConn : string;
  PhoneSignalStrength : string;
  WiFiSignalStrength : Z;
  WiFiSupplicantState : string;
  DeviceIdleMode : string;
  States : option (gmap string bool);
  WakeReasons : option (gmap string bool);
  RailCharges : option (gmap string Z)
}.

Definition set_Timestamp (v : time.Time) (e : BatteryHistoryV2Entry) : BatteryHistoryV2Entry :=
  mkEntry v (TimestampMs e) (BatteryPercent e) (Voltage e) (Temperature e) (ChargeMicroAh e) (Status e) (Health e) (PlugType e) (DataConn e) (PhoneSignalStrength e) (WiFiSignalStrength e) (WiFiSupplicantState e) (DeviceIdleMode e) (States e) (WakeReasons e) (RailCharges e).

Definition set_Voltage (v : Z) (e : BatteryHistoryV2Entry) : BatteryHistoryV2Entry :=
  mkEntry (Timestamp e) (TimestampMs e) (BatteryPercent e) v (Temperature e) (ChargeMicroAh e) (Status e) (Health e) (PlugType e) (DataConn e) (PhoneSignalStrength e) (WiFiSignalStrength e) (WiFiSupplicantState e) (DeviceIdleMode e) (States e) (WakeReasons e) (RailCharges e).

Definition set_Temperature (v : Z) (e : BatteryHistoryV2Entry) : BatteryHistoryV2Entry :=
  mkEntry (Timestamp e) (TimestampMs e) (BatteryPercent e) (Voltage e) v (ChargeMicroAh e) (Status e) (Health e) (PlugType e) (DataConn e) (PhoneSignalStrength e) (WiFiSignalStrength e) (WiFiSupplicantState e) (DeviceIdleMode e) (States e) (WakeReasons e) (RailCharges e).

Definition set_ChargeMicroAh (v : Z) (e : BatteryHistoryV2Entry) : BatteryHistoryV2Entry :=
  mkEntry (Timestamp e) (TimestampMs e) (BatteryPercent e) (Voltage e) (Temperature e) v (Status e) (Health e) (PlugType e) (DataConn e) (PhoneSignalStrength e) (WiFiSignalStrength e) (WiFiSupplicantState e) (DeviceIdleMode e) (States e) (WakeReasons e) (RailCharges e).

Definition set_Status (v : string) (e : BatteryHistoryV2Entry) : BatteryHistoryV2Entry :=
  mkEntry (Timestamp e) (TimestampMs e) (BatteryPercent e) (Voltage e) (Temperature e) (ChargeMicroAh e) v (Health e) (PlugType e) (DataConn e) (PhoneSignalStrength e) (WiFiSignalStrength e) (WiFiSupplicantState e) (DeviceIdleMode e) (States e) (WakeReasons e) (RailCharges e).

Definition set_Health (v : string) (e : BatteryHistoryV2Entry) : BatteryHistoryV2Entry :=
  mkEntry (Timestamp e) (TimestampMs e) (BatteryPercent e) (Voltage e) (Temperature e) (ChargeMicroAh e) (Status e) v (PlugType e) (DataConn e) (PhoneSignalStrength e) (WiFiSignalStrength e) (WiFiSupplicantState e) (DeviceIdleMode e) (States e) (WakeReasons e) (RailCharges e).

Definition set_PlugType (v : string) (e : BatteryHistoryV2Entry) : BatteryHistoryV2Entry :=
  mkEntry (Timestamp e) (TimestampMs e) (BatteryPercent e) (Voltage e) (Temperature e) (ChargeMicroAh e) (Status e) (Health e) v (DataConn e) (PhoneSignalStrength e) (WiFiSignalStrength e) (WiFiSupplicantState e) (DeviceIdleMode e) (States e) (WakeReasons e) (RailCharges e).

Definition set_DataConn (v : string) (e : BatteryHistoryV2Entry) : BatteryHistoryV2Entry :=
  mkEntry (Timestamp e) (TimestampMs e) (BatteryPercent e) (Voltage e) (Temperature e) (ChargeMicroAh e) (Status e) (Health e) (PlugType e) v (PhoneSignalStrength e) (WiFiSignalStrength e) (WiFiSupplicantState e) (DeviceIdleMode e) (States e) (WakeReasons e) (RailCharges e).

Definition set_PhoneSignalStrength (v : string) (e : BatteryHistoryV2Entry) : BatteryHistoryV2Entry :=
  mkEntry (Timestamp e) (TimestampMs e) (BatteryPercent e) (Voltage e) (Temperature e) (ChargeMicroAh e) (Status e) (Health e) (PlugType e) (DataConn e) v (WiFiSignalStrength e) (WiFiSupplicantState e) (DeviceIdleMode e) (States e) (WakeReasons e) (RailCharges e).

Definition set_WiFiSignalStrength (v : Z) (e : BatteryHistoryV2Entry) : BatteryHistoryV2Entry :=
  mkEntry (Timestamp e) (TimestampMs e) (BatteryPercent e) (Voltage e) (Temperature e) (ChargeMicroAh e) (Status e) (Health e) (PlugType e) (DataConn e) (PhoneSignalStrength e) v (WiFiSupplicantState e) (DeviceIdleMode e) (States e) (WakeReasons e) (RailCharges e).

Definition set_WiFiSupplicantState (v : string) (e : BatteryHistoryV2Entry) : BatteryHistoryV2Entry :=
  mkEntry (Timestamp e) (TimestampMs e) (BatteryPercent e) (Voltage e) (Temperature e) (ChargeMicroAh e) (Status e) (Health e) (PlugType e) (DataConn e) (PhoneSignalStrength e) (WiFiSignalStrength e) v (DeviceIdleMode e) (States e) (WakeReasons e) (RailCharges e).

Definition set_DeviceIdleMode (v : string) (e : BatteryHistoryV2Entry) : BatteryHistoryV2Entry :=
  mkEntry (Timestamp e) (TimestampMs e) (BatteryPercent e) (Voltage e) (Temperature e) (ChargeMicroAh e) (Status e) (Health e) (PlugType e) (DataConn e) (PhoneSignalStrength e) (WiFiSignalStrength e) (WiFiSupplicantState e) v (States e) (WakeReasons e) (RailCharges e).

Definition set_States (v : option (gmap string bool)) (e : BatteryHistoryV2Entry) : BatteryHistoryV2Entry :=
  mkEntry (Timestamp e) (TimestampMs e) (BatteryPercent e) (Voltage e) (Temperature e) (ChargeMicroAh e) (Status e) (Health e) (PlugType e) (DataConn e) (PhoneSignalStrength e) (WiFiSignalStrength e) (WiFiSupplicantState e) (DeviceIdleMode e) v (WakeReasons e) (RailCharges e).

Definition set_WakeReasons (v : option (gmap string bool)) (e : BatteryHistoryV2Entry) : BatteryHistoryV2Entry :=
  mkEntry (Timestamp e) (TimestampMs e) (BatteryPercent e) (Voltage e) (Temperature e) (ChargeMicroAh e) (Status e) (Health e) (PlugType e) (DataConn e) (PhoneSignalStrength e) (WiFiSignalStrength e) (WiFiSupplicantState e) (DeviceIdleMode e) (States e) v (RailCharges e).

Definition set_RailCharges (v : option (gmap string Z)) (e : BatteryHistoryV2Entry) : BatteryHistoryV2Entry :=
  mkEntry (Timestamp e) (TimestampMs e) (BatteryPercent e) (Voltage e) (Temperature e) (ChargeMicroAh e) (Status e) (Health e) (PlugType e) (DataConn e) (PhoneSignalStrength e) (WiFiSignalStrength e) (WiFiSupplicantState e) (DeviceIdleMode e) (States e) (WakeReasons e) v.

(** Modelled from the spec: package csv is not among the sources; its
    [Entry] is taken with the five fields [ConvertToCSVEntry] sets
    (description, category, start offset, value, source tag). *)
Module csv.
Record Entry : Type := mkEntry {
  Desc : string;
  Type_ : string;
  Start : Z;
  Value : string;
  Identifier : string
}.
End csv.

(** ** Loops and map assignment *)

(** [for _, x := range xs { body }] over a state that the body may
    abandon by a panic. *)
Fixpoint forEach {A St : Type} (body : St -> A -> option St) (xs : list A) (st : St)
    : option St :=
  match xs with
  | [] => Some st
  | x :: xs' => st' ← body st x; forEach body xs' st'
  end.

(** [m[k] = v]: assignment to an entry of a nil map panics. *)
Definition assign {V : Type} (m : option (gmap string V)) (k : string) (v : V)
    : option (option (gmap string V)) :=
  match m with
  | Some g => Some (Some (<[k := v]> g))
  | None => None
  end.

(** ** The extraction passes *)

(** The body of the loop of [parseKeyValuePairsV2]. *)
Definition keyValueStep (entry : BatteryHistoryV2Entry) (m : list string)
    : option BatteryHistoryV2Entry :=
  let key := sub m 1 in
  let value := sub m 2 in
  if String.eqb key "charge" then
    match strconv.ParseInt value 64 with
    | Some v => Some (set_ChargeMicroAh v entry)
    | None => Some entry
    end
  else if String.eqb key "volt" then
    match strconv.ParseInt value 32 with
    | Some v => Some (set_Voltage (int32 v) entry)
    | None => Some entry
    end
  else if String.eqb key "temp" then
    match strconv.ParseInt value 32 with
    | Some v => Some (set_Temperature (int32 v) entry)
    | None => Some entry
    end
  else if String.eqb key "status" then Some (set_Status value entry)
  else if String.eqb key "health" then Some (set_Health value entry)
  else if String.eqb key "plug" then Some (set_PlugType value entry)
  else if String.eqb key "data_conn" then Some (set_DataConn value entry)
  else if String.eqb key "phone_signal_strength" then Some (set_PhoneSignalStrength value entry)
  else if String.eqb key "wifi_signal_strength" then
    match strconv.ParseInt value 32 with
    | Some v => Some (set_WiFiSignalStrength (int32 v) entry)
    | None => Some entry
    end
  else if String.eqb key "wifi_suppl" then Some (set_WiFiSupplicantState value entry)
  else if String.eqb key "device_idle" then Some (set_DeviceIdleMode value entry)
  else if String.eqb key "modemRailChargemAh" || String.eqb key "wifiRailChargemAh" then
    match strconv.ParseInt value 64 with
    | Some v =>
        charges ← assign (RailCharges entry) key v;
        Some (set_RailCharges charges entry)
    | None => Some entry
    end
  else Some entry.

Definition parseKeyValuePairsV2 (entry : BatteryHistoryV2Entry) (line : string)
    : option BatteryHistoryV2Entry :=
  let matches := Regexp.FindAllStringSubmatch keyValuePattern line in
  forEach keyValueStep matches entry.

(** The two boundary tests of [parseStateTransitionsV2], at offset [idx]
    for a matched text of length [n]. *)
Definition prevOk (line : string) (idx : Z) : option bool :=
  if (0 <? idx)%Z then
    prevChar ← byteAt line (idx - 1);
    Some (Chr.same " " prevChar || Chr.same "+" prevChar || Chr.same "-" prevChar)
  else Some true.

Definition nextOk (line : string) (idx n : Z) : option bool :=
  if (idx + n <? len line)%Z then
    nextChar ← byteAt line (idx + n);
    Some (Chr.same " " nextChar || Chr.same "+" nextChar || Chr.same "-" nextChar
          || Chr.same "," nextChar)
  else Some true.

(** The body of the loop of [parseStateTransitionsV2]. *)
Definition stateTransitionStep (line : string) (entry : BatteryHistoryV2Entry)
    (m : list string) : option BatteryHistoryV2Entry :=
  let transition := sub m 1 in
  let state := sub m 2 in
  if negb (strings.Contains (sub m 0) "=") then
    let isActive := String.eqb transition "+" in
    let idx := strings.Index line (sub m 0) in
    if (0 <=? idx)%Z then
      pOk ← prevOk line idx;
      nOk ← nextOk line idx (len (sub m 0));
      if pOk && nOk then
        states ← assign (States entry) state isActive;
        Some (set_States states entry)
      else Some entry
    else Some entry
  else Some entry.

Definition parseStateTransitionsV2 (entry : BatteryHistoryV2Entry) (line : string)
    : option BatteryHistoryV2Entry :=
  let matches := Regexp.FindAllStringSubmatch stateTransitionPattern line in
  forEach (stateTransitionStep line) matches entry.

(** The body of the loop of [parseWakeReasonsV2]. *)
Definition wakeReasonStep (entry : BatteryHistoryV2Entry) (m : list string)
    : option BatteryHistoryV2Entry :=
  let reason := sub m 1 in
  reasons ← assign (WakeReasons entry) reason true;
  Some (set_WakeReasons reasons entry).

Definition parseWakeReasonsV2 (entry : BatteryHistoryV2Entry) (line : string)
    : option BatteryHistoryV2Entry :=
  let matches := Regexp.FindAllStringSubmatch wakeReasonPattern line in
  forEach wakeReasonStep matches entry.

(** ** Parsing a line *)

(** The entry [ParseHistoryV2Line] starts from: every field at its zero
    value but the three maps, which are made. *)
Definition freshEntry : BatteryHistoryV2Entry :=
  mkEntry time.zero 0 0 0 0 0 "" "" "" "" "" 0 "" "" (Some ∅) (Some ∅) (Some ∅).

Definition errInvalidFormat : string := "invalid battery history v2 format".

(** [ParseHistoryV2Line]: the pair of results (a nil pointer or error
    is [None]); [now] is the reading of the wall clock that [time.Now]
    returns during the call. *)
Definition ParseHistoryV2Line (now : time.Time) (line : string)
    : option (option BatteryHistoryV2Entry * option string) :=
  let matches := Regexp.FindStringSubmatch historyLinePatternV2 (strings.TrimSpace line) in
  if (length matches =? 0)%nat then Some (None, Some errInvalidFormat)
  else
    let entry := freshEntry in
    let monthDay := sub matches 1 in
    let timeStr := sub matches 2 in
    let timestampStr := "2026-" +:+ monthDay +:+ " " +:+ timeStr in
    let entry :=
      match time.Parse timestampStr with
      | None => set_Timestamp now entry
      | Some ts => set_Timestamp ts entry
      end in
    let remainder := sub matches 5 in
    entry ← parseStateTransitionsV2 entry remainder;
    entry ← parseKeyValuePairsV2 entry remainder;
    entry ← parseWakeReasonsV2 entry remainder;
    Some (Some entry, None).

(** ** Projection to a CSV entry *)

Definition appendIf (c : bool) (x : string) (values : list string) : list string :=
  if c then (values ++ [x])%list else values.

Definition ConvertToCSVEntry (entry : BatteryHistoryV2Entry) : csv.Entry :=
  let values := [] in
  let values := appendIf (negb (String.eqb (Status entry) "")) ("status=" +:+ Status entry) values in
  let values := appendIf (negb (String.eqb (Health entry) "")) ("health=" +:+ Health entry) values in
  let values := appendIf (0 <? Voltage entry)%Z ("volt=" +:+ fmt_d (Voltage entry)) values in
  let values := appendIf (0 <? Temperature entry)%Z ("temp=" +:+ fmt_d (Temperature entry)) values in
  csv.mkEntry "Battery state change" "Battery State" (TimestampMs entry)
    (strings.Join values ",") "system".

(** ** Format detection *)

Fixpoint detectLines (lines : list string) : Z :=
  match lines with
  | [] => 1%Z
  | line :: lines' =>
      if strings.HasPrefix (strings.TrimSpace line) "9,h," then 1%Z
      else if Regexp.MatchString historyLinePatternV2 line then 2%Z
      else detectLines lines'
  end.

Definition DetectHistoryFormatVersion (historyText : string) : Z :=
  let lines := strings.Split historyText Chr.nl in
  detectLines lines.

(** ** Auxiliary notions used in the statements *)

(** Every byte of [s] is in the class [p]. *)
Fixpoint allb (p : ascii -> bool) (s : string) : bool :=
  match s with
  | EmptyString => true
  | String c s' => p c && allb p s'
  end.

(** Whether [s] begins with a byte of the class [p]. *)
Definition starts (p : ascii -> bool) (s : string) : bool :=
  match s with
  | EmptyString => false
  | String c _ => p c
  end.

(** The beginning-of-text flag a continuation receives after [w] has
    been consumed. *)
Definition after (b : bool) (w : string) : bool :=
  match w with
  | EmptyString => b
  | String _ _ => false
  end.

(** A step with its panic turned into doing nothing. *)
Definition purely {A St : Type} (step : St -> A -> option St) (st : St) (x : A) : St :=
  default st (step st x).

(** The steps panic on [st'] exactly when they do on [st]. *)
Definition same_panics {A St : Type} (step : St -> A -> option St) (st st' : St) : Prop :=
  forall y, is_Some (step st' y) <-> is_Some (step st y).

(** ** The passes as logs of writes

    What a pass does to the entry is a sequence of writes, one for each
    match that has an effect; the lemmas below relate the loops of the
    source to these logs. *)

Inductive write : Type :=
| SetChargeMicroAh (v : Z)
| SetVoltage (v : Z)
| SetTemperature (v : Z)
| SetStatus (s : string)
| SetHealth (s : string)
| SetPlugType (s : string)
| SetDataConn (s : string)
| SetPhoneSignalStrength (s : string)
| SetWiFiSignalStrength (v : Z)
| SetWiFiSupplicantState (s : string)
| SetDeviceIdleMode (s : string)
| PutRailCharge (k : string) (v : Z)
| PutState (k : string) (b : bool)
| PutWakeReason (k : string).

Definition commit (e : BatteryHistoryV2Entry) (w : write) : option BatteryHistoryV2Entry :=
  match w with
  | SetChargeMicroAh v => Some (set_ChargeMicroAh v e)
  | SetVoltage v => Some (set_Voltage v e)
  | SetTemperature v => Some (set_Temperature v e)
  | SetStatus s => Some (set_Status s e)
  | SetHealth s => Some (set_Health s e)
  | SetPlugType s => Some (set_PlugType s e)
  | SetDataConn s => Some (set_DataConn s e)
  | SetPhoneSignalStrength s => Some (set_PhoneSignalStrength s e)
  | SetWiFiSignalStrength v => Some (set_WiFiSignalStrength v e)
  | SetWiFiSupplicantState s => Some (set_WiFiSupplicantState s e)
  | SetDeviceIdleMode s => Some (set_DeviceIdleMode s e)
  | PutRailCharge k v => charges ← assign (RailCharges e) k v; Some (set_RailCharges charges e)
  | PutState k b => states ← assign (States e) k b; Some (set_States states e)
  | PutWakeReason k => reasons ← assign (WakeReasons e) k true; Some (set_WakeReasons reasons e)
  end.

(** The pass a write belongs to. *)
Inductive pass : Type := StatePass | KeyValuePass | WakePass.

Definition passOf (w : write) : pass :=
  match w with
  | PutState _ _ => StatePass
  | PutWakeReason _ => WakePass
  | _ => KeyValuePass
  end.

(** The write a key=value match stands for, if any. *)
Definition keyValueWrite (m : list string) : option write :=
  let key := sub m 1 in
  let value := sub m 2 in
  if String.eqb key "charge" then SetChargeMicroAh <$> strconv.ParseInt value 64
  else if String.eqb key "volt" then (fun v => SetVoltage (int32 v)) <$> strconv.ParseInt value 32
  else if String.eqb key "temp" then (fun v => SetTemperature (int32 v)) <$> strconv.ParseInt value 32
  else if String.eqb key "status" then Some (SetStatus value)
  else if String.eqb key "health" then Some (SetHealth value)
  else if String.eqb key "plug" then Some (SetPlugType value)
  else if String.eqb key "data_conn" then Some (SetDataConn value)
  else if String.eqb key "phone_signal_strength" then Some (SetPhoneSignalStrength value)
  else if String.eqb key "wifi_signal_strength" then
    (fun v => SetWiFiSignalStrength (int32 v)) <$> strconv.ParseInt value 32
  else if String.eqb key "wifi_suppl" then Some (SetWiFiSupplicantState value)
  else if String.eqb key "device_idle" then Some (SetDeviceIdleMode value)
  else if String.eqb key "modemRailChargemAh" || String.eqb key "wifiRailChargemAh" then
    PutRailCharge key <$> strconv.ParseInt value 64
  else None.

(** Whether [parseStateTransitionsV2] lets a match write into States:
    the three tests of its loop body. *)
Definition toggleAccepted (line : string) (m : list string) : bool :=
  let idx := strings.Index line (sub m 0) in
  negb (strings.Contains (sub m 0) "=") && (0 <=? idx)%Z &&
  match prevOk line idx, nextOk line idx (len (sub m 0)) with
  | Some pOk, Some nOk => pOk && nOk
  | _, _ => false
  end.

Definition stateTransitionWrite (line : string) (m : list string) : option write :=
  if toggleAccepted line m then Some (PutState (sub m 2) (String.eqb (sub m 1) "+")) else None.

Definition wakeReasonWrite (m : list string) : option write :=
  Some (PutWakeReason (sub m 1)).

Definition keyValueWrites (line : string) : list write :=
  omap keyValueWrite (Regexp.FindAllStringSubmatch keyValuePattern line).

Definition stateTransitionWrites (line : string) : list write :=
  omap (stateTransitionWrite line) (Regexp.FindAllStringSubmatch stateTransitionPattern line).

Definition wakeReasonWrites (line : string) : list write :=
  omap wakeReasonWrite (Regexp.FindAllStringSubmatch wakeReasonPattern line).

(** The three maps of an entry are present (not nil). *)
Definition mapsPresent (e : BatteryHistoryV2Entry) : Prop :=
  is_Some (States e) /\ is_Some (WakeReasons e) /\ is_Some (RailCharges e).

(** The three passes in the order [ParseHistoryV2Line] calls them, and
    a run of passes in a given order over one remainder. *)
Definition extractionPasses
    : list (BatteryHistoryV2Entry -> string -> option BatteryHistoryV2Entry) :=
  [parseStateTransitionsV2; parseKeyValuePairsV2; parseWakeReasonsV2].

Definition runPasses
    (order : list (BatteryHistoryV2Entry -> string -> option BatteryHistoryV2Entry))
    (remainder : string) (e : BatteryHistoryV2Entry) : option BatteryHistoryV2Entry :=
  forEach (fun e' pass => pass e' remainder) order e.


(** The vocabulary of the scalar pass: the numeric kind of an
    identifier (its size in bits), and the recognized identifiers. *)
Definition numericKind (key : string) : option Z :=
  if String.eqb key "volt" || String.eqb key "temp" || String.eqb key "wifi_signal_strength"
  then Some 32%Z
  else if String.eqb key "charge" || String.eqb key "modemRailChargemAh"
          || String.eqb key "wifiRailChargemAh"
  then Some 64%Z
  else None.

Definition vocabulary : list string :=
  [ "status"; "health"; "plug"; "data_conn"; "phone_signal_strength"; "wifi_suppl";
    "device_idle"; "volt"; "temp"; "wifi_signal_strength"; "charge";
    "modemRailChargemAh"; "wifiRailChargemAh" ].

Definition recognized (key : string) : bool := existsb (String.eqb key) vocabulary.

(** A key=value match that is to have no effect: a numeric identifier
    whose value does not parse as its kind, or an identifier outside the
    vocabulary. *)
Definition ignored (m : list string) : bool :=
  match numericKind (sub m 1) with
  | Some bits => match strconv.ParseInt (sub m 2) bits with None => true | Some _ => false end
  | None => negb (recognized (sub m 1))
  end.

(** The key=value fragments of the projection, in their fixed order,
    for a given choice of which numbers are rendered. *)
Definition fragments (rendered : Z -> bool) (e : BatteryHistoryV2Entry) : list string :=
  ((if String.eqb (Status e) "" then [] else ["status=" +:+ Status e])
   ++ (if String.eqb (Health e) "" then [] else ["health=" +:+ Health e])
   ++ (if rendered (Voltage e) then ["volt=" +:+ fmt_d (Voltage e)] else [])
   ++ (if rendered (Temperature e) then ["temp=" +:+ fmt_d (Temperature e)] else []))%list.

Definition nonZero (v : Z) : bool := negb (v =? 0)%Z.
Definition positive (v : Z) : bool := (0 <? v)%Z.

(** The record the specification describes for an entry. *)
Definition projection (rendered : Z -> bool) (e : BatteryHistoryV2Entry) : csv.Entry :=
  csv.mkEntry "Battery state change" "Battery State" (TimestampMs e)
    (strings.Join (fragments rendered e) ",") "system".

(** Writing a list of key/value pairs into a map, in order. *)
Definition writeAll {V : Type} (l : list (string * V)) (g : gmap string V) : gmap string V :=
  fold_left (fun g' kv => <[kv.1 := kv.2]> g') l g.

(** Two passes commute on the remainder [r]. *)
Definition commuting (r : string)
    (f g : BatteryHistoryV2Entry -> string -> option BatteryHistoryV2Entry) : Prop :=
  forall e, f e r ≫= (fun e' => g e' r) = g e r ≫= (fun e' => f e' r).

(** The submatches of the trimmed line, the text handed to
    [time.Parse], and the timestamp an entry receives. *)
Definition lineMatches (line : string) : list string :=
  Regexp.FindStringSubmatch historyLinePatternV2 (strings.TrimSpace line).

Definition timestampStr (matches : list string) : string :=
  "2026-" +:+ sub matches 1 +:+ " " +:+ sub matches 2.

Definition timestampOf (now : time.Time) (matches : list string) : time.Time :=
  default now (time.Parse (timestampStr matches)).

(** The result of [ParseHistoryV2Line] with the timestamp of the entry,
    if there is one, put to the zero time. *)
Definition withoutTimestamp (r : option (option BatteryHistoryV2Entry * option string))
    : option (option BatteryHistoryV2Entry * option string) :=
  match r with
  | Some (Some e, err) => Some (Some (set_Timestamp time.zero e), err)
  | other => other
  end.

(** ** The grammars in words *)

(** A string with one byte of each class of a list, in order. *)
Fixpoint shaped (classes : list (ascii -> bool)) (s : string) : bool :=
  match classes, s with
  | [], EmptyString => true
  | p :: classes', String c s' => p c && shaped classes' s'
  | _, _ => false
  end.

(** A non-empty run of bytes of one class. *)
Definition nonEmptyRun (p : ascii -> bool) (s : string) : bool :=
  allb p s && negb (String.eqb s "").

(** dd-dd and dd:dd:dd.ddd *)
Definition monthDayShape : list (ascii -> bool) :=
  [Chr.digit; Chr.digit; Chr.same "-"; Chr.digit; Chr.digit].

Definition timeOfDayShape : list (ascii -> bool) :=
  [Chr.digit; Chr.digit; Chr.same ":"; Chr.digit; Chr.digit; Chr.same ":";
   Chr.digit; Chr.digit; Chr.same "."; Chr.digit; Chr.digit; Chr.digit].

(** The Format-2 grammar of a line: month-day, time of day, decimal
    sequence number, hexadecimal state bitmask and the remainder (the
    rest of the line, so without a newline), separated by runs of white
    space. *)
Definition Format2 (s : string) : Prop :=
  exists md ws1 tm ws2 sq ws3 hx ws4 rest,
    s = md +:+ ws1 +:+ tm +:+ ws2 +:+ sq +:+ ws3 +:+ hx +:+ ws4 +:+ rest /\
    shaped monthDayShape md = true /\ nonEmptyRun Chr.space ws1 = true /\
    shaped timeOfDayShape tm = true /\ nonEmptyRun Chr.space ws2 = true /\
    nonEmptyRun Chr.digit sq = true /\ nonEmptyRun Chr.space ws3 = true /\
    nonEmptyRun Chr.hex hx = true /\ nonEmptyRun Chr.space ws4 = true /\
    allb Chr.any rest = true.

(** The rule of the specification for a toggle matched at offset [pos]:
    no equals sign in the matched text, the byte before it, if any, a
    blank or a sign, the byte after it, if any, a blank, a sign or a
    comma. *)
Definition boundedToggle (line : string) (pos : nat) (m : list string) : bool :=
  negb (strings.Contains (sub m 0) "=")
  && match pos with
     | O => true
     | S before =>
         match String.get before line with
         | Some c => Chr.same " " c || Chr.same "+" c || Chr.same "-" c
         | None => false
         end
     end
  && match String.get (pos + String.length (sub m 0)) line with
     | Some c => Chr.same " " c || Chr.same "+" c || Chr.same "-" c || Chr.same "," c
     | None => true
     end.

(** The double quote as a string. *)
Definition quote : string := String Chr.dquote EmptyString.

(** A wake-reason token: wake_reason=, digits, a colon and a quoted
    text. *)
Definition wakeToken (d t : string) : string :=
  "wake_reason=" +:+ d +:+ ":" +:+ quote +:+ t +:+ quote.

Definition isWakeToken (d t : string) : Prop :=
  nonEmptyRun Chr.digit d = true /\ nonEmptyRun Chr.unquoted t = true.

Definition wakeTokenAt (s : string) : Prop :=
  exists d t post, isWakeToken d t /\ s = wakeToken d t +:+ post.

(** The quoted texts of the wake-reason tokens of a string, from left
    to right: the leftmost token, then those of what follows it. *)
Inductive WakeTokens : string -> list string -> Prop :=
| WakeTokens_none (s : string) :
    (forall pre rest, s = pre +:+ rest -> ~ wakeTokenAt rest) ->
    WakeTokens s []
| WakeTokens_next (pre d t post : string) (ts : list string) :
    isWakeToken d t ->
    (forall pre1 pre2, pre = pre1 +:+ pre2 -> pre2 <> "" ->
       ~ wakeTokenAt (pre2 +:+ wakeToken d t +:+ post)) ->
    WakeTokens post ts ->
    WakeTokens (pre +:+ wakeToken d t +:+ post) (t :: ts).

(** The texts [parseWakeReasonsV2] collects from a remainder. *)
Definition wakeTexts (line : string) : list string :=
  map (fun m => sub m 1) (Regexp.FindAllStringSubmatch wakeReasonPattern line).

(** A line that decides for the legacy format, and one that decides
    for Format 2, as [DetectHistoryFormatVersion] tests them. *)
Definition legacyLine (line : string) : bool :=
  strings.HasPrefix (strings.TrimSpace line) "9,h,".

Definition format2Raw (line : string) : bool :=
  negb (legacyLine line) && Regexp.MatchString historyLinePatternV2 line.

(** The matches found from a position of the scan, without their
    offsets. *)
Definition matchesFrom (r : regex) (b : bool) (skip : nat) (s : string) : list (list string) :=
  map snd (Regexp.scan r b skip 0 s).

(** ** What the passes write *)

(** The ranges of the Go integer types of the numeric fields. *)
Definition int32Range (v : Z) : Prop := (- 2 ^ 31 <= v < 2 ^ 31)%Z.
Definition int64Range (v : Z) : Prop := (- 2 ^ 63 <= v < 2 ^ 63)%Z.

(** The two identifiers that are routed into RailCharges. *)
Definition railName (k : string) : Prop :=
  k = "modemRailChargemAh" \/ k = "wifiRailChargemAh".

(** A write as the patterns and the number parser can produce it: a
    number within the range of its field, a string value that is a
    non-empty run without comma or white space, a rail name, a state
    name that is a word, a wake reason that is a non-empty text without
    a double quote. *)
Definition producible (w : write) : Prop :=
  match w with
  | SetChargeMicroAh v => int64Range v
  | SetVoltage v | SetTemperature v | SetWiFiSignalStrength v => int32Range v
  | SetStatus s | SetHealth s | SetPlugType s | SetDataConn s
  | SetPhoneSignalStrength s | SetWiFiSupplicantState s | SetDeviceIdleMode s =>
      nonEmptyRun Chr.value s = true
  | PutRailCharge k v => railName k /\ int64Range v
  | PutState k _ => nonEmptyRun Chr.word k = true
  | PutWakeReason k => nonEmptyRun Chr.unquoted k = true
  end.


(** A string field is empty or a run without comma or white space. *)
Definition cleanField (s : string) : Prop := allb Chr.value s = true.

Definition stringsClean (e : BatteryHistoryV2Entry) : Prop :=
  cleanField (Status e) /\ cleanField (Health e) /\ cleanField (PlugType e) /\
  cleanField (DataConn e) /\ cleanField (PhoneSignalStrength e) /\
  cleanField (WiFiSupplicantState e) /\ cleanField (DeviceIdleMode e).

(** The keys and values of the three maps: state names are words, wake
    reasons are non-empty texts without a double quote and are all
    mapped to true, rails are the two rail names. *)
Definition mapsWellKeyed (e : BatteryHistoryV2Entry) : Prop :=
  (forall g k b, States e = Some g -> g !! k = Some b -> nonEmptyRun Chr.word k = true) /\
  (forall g k b, WakeReasons e = Some g -> g !! k = Some b ->
     nonEmptyRun Chr.unquoted k = true /\ b = true) /\
  (forall g k v, RailCharges e = Some g -> g !! k = Some v -> railName k).

(** Two writes go to the same place: the same field, or the same key
    of the same map. *)
Definition sameTarget (w1 w2 : write) : Prop :=
  match w1, w2 with
  | SetChargeMicroAh _, SetChargeMicroAh _
  | SetVoltage _, SetVoltage _
  | SetTemperature _, SetTemperature _
  | SetStatus _, SetStatus _
  | SetHealth _, SetHealth _
  | SetPlugType _, SetPlugType _
  | SetDataConn _, SetDataConn _
  | SetPhoneSignalStrength _, SetPhoneSignalStrength _
  | SetWiFiSignalStrength _, SetWiFiSignalStrength _
  | SetWiFiSupplicantState _, SetWiFiSupplicantState _
  | SetDeviceIdleMode _, SetDeviceIdleMode _ => True
  | PutRailCharge k1 _, PutRailCharge k2 _ => k1 = k2
  | PutState k1 _, PutState k2 _ => k1 = k2
  | PutWakeReason k1, PutWakeReason k2 => k1 = k2
  | _, _ => False
  end.

(** The entry holds what the write wrote. *)
Definition holds (w : write) (e : BatteryHistoryV2Entry) : Prop :=
  match w with
  | SetChargeMicroAh v => ChargeMicroAh e = v
  | SetVoltage v => Voltage e = v
  | SetTemperature v => Temperature e = v
  | SetStatus s => Status e = s
  | SetHealth s => Health e = s
  | SetPlugType s => PlugType e = s
  | SetDataConn s => DataConn e = s
  | SetPhoneSignalStrength s => PhoneSignalStrength e = s
  | SetWiFiSignalStrength v => WiFiSignalStrength e = v
  | SetWiFiSupplicantState s => WiFiSupplicantState e = s
  | SetDeviceIdleMode s => DeviceIdleMode e = s
  | PutRailCharge k v => exists g, RailCharges e = Some g /\ g !! k = Some v
  | PutState k b => exists g, States e = Some g /\ g !! k = Some b
  | PutWakeReason k => exists g, WakeReasons e = Some g /\ g !! k = Some true
  end.

(** The identifier whose match stands for a write of the scalar pass. *)
Definition identifierOf (w : write) : string :=
  match w with
  | SetChargeMicroAh _ => "charge"
  | SetVoltage _ => "volt"
  | SetTemperature _ => "temp"
  | SetStatus _ => "status"
  | SetHealth _ => "health"
  | SetPlugType _ => "plug"
  | SetDataConn _ => "data_conn"
  | SetPhoneSignalStrength _ => "phone_signal_strength"
  | SetWiFiSignalStrength _ => "wifi_signal_strength"
  | SetWiFiSupplicantState _ => "wifi_suppl"
  | SetDeviceIdleMode _ => "device_idle"
  | PutRailCharge k _ => k
  | PutState _ _ | PutWakeReason _ => ""
  end.

(** * Properties *)

(** ** Strings *)

Lemma app_nil_l (s : string) : "" +:+ s = s.
Proof. reflexivity. Qed.

Lemma app_cons (c : ascii) (s t : string) : String c s +:+ t = String c (s +:+ t).
Proof. reflexivity. Qed.

Lemma app_nil_r (s : string) : s +:+ "" = s.
Proof. induction s as [|c s IH]; [reflexivity|]. now rewrite app_cons, IH. Qed.

Lemma app_assoc (s t u : string) : (s +:+ t) +:+ u = s +:+ t +:+ u.
Proof. induction s as [|c s IH]; [reflexivity|]. now rewrite !app_cons, IH. Qed.

Lemma length_app (s t : string) :
  String.length (s +:+ t) = (String.length s + String.length t)%nat.
Proof. induction s as [|c s IH]; [reflexivity|]. rewrite app_cons. simpl. now rewrite IH. Qed.

Lemma substring_app (w s : string) : substring 0 (String.length w) (w +:+ s) = w.
Proof.
  induction w as [|c w IH].
  - destruct s; reflexivity.
  - rewrite app_cons. simpl. now rewrite IH.
Qed.

Lemma allb_app (p : ascii -> bool) (s t : string) :
  allb p (s +:+ t) = allb p s && allb p t.
Proof.
  induction s as [|c s IH]; [reflexivity|].
  rewrite app_cons. simpl. rewrite IH. now rewrite andb_assoc.
Qed.

(** ** The matcher *)

Module RegexpFacts.
Import Regexp.

Lemma taken_app (w s : string) : taken (w +:+ s) s = w.
Proof.
  unfold taken. rewrite length_app.
  replace (String.length w + String.length s - String.length s)%nat
    with (String.length w) by lia.
  apply substring_app.
Qed.

Lemma taken_all (s : string) : taken s "" = s.
Proof. rewrite <- (app_nil_r s) at 1. apply taken_app. Qed.

Section Greedy.
Context {A : Type} (p : ascii -> bool).

(** A repetition that stops at a byte outside its class hands the
    longest run to the continuation first. *)
Lemma greedy_longest (w rest : string) (b : bool) (cs : caps) (k : kont A) (x : A) :
  allb p w = true -> starts p rest = false ->
  k (after b w) rest cs = Some x ->
  greedy p b (w +:+ rest) cs k = Some x.
Proof.
  revert b. induction w as [|c w IH]; intros b Hw Hrest Hk.
  - rewrite app_nil_l. destruct rest as [|c rest]; simpl in *; [assumption|].
    now rewrite Hrest.
  - rewrite app_cons. simpl in *. apply andb_prop in Hw as [Hc Hw].
    rewrite Hc. rewrite (IH false Hw Hrest); [reflexivity|].
    destruct w; assumption.
Qed.

Lemma greedy_inv (s : string) (b : bool) (cs : caps) (k : kont A) (x : A) :
  greedy p b s cs k = Some x ->
  exists w rest, s = w +:+ rest /\ allb p w = true /\ k (after b w) rest cs = Some x.
Proof.
  revert b. induction s as [|c s IH]; intros b H; simpl in H.
  - exists "", "". auto.
  - destruct (p c) eqn:Hc.
    + destruct (greedy p false s cs k) as [y|] eqn:Hg.
      * injection H as ->. apply IH in Hg as (w & rest & -> & Hw & Hk).
        exists (String c w), rest. rewrite app_cons. simpl. rewrite Hc, Hw.
        repeat split. now destruct w.
      * exists "", (String c s). auto.
    + exists "", (String c s). auto.
Qed.

Lemma plus_longest (w rest : string) (b : bool) (cs : caps) (k : kont A) (x : A) :
  allb p w = true -> w <> "" -> starts p rest = false ->
  k false rest cs = Some x ->
  run (Plus p) b (w +:+ rest) cs k = Some x.
Proof.
  intros Hw Hne Hrest Hk. destruct w as [|c w]; [congruence|].
  rewrite app_cons. simpl in *. apply andb_prop in Hw as [-> Hw].
  apply greedy_longest; try assumption. now destruct w.
Qed.

Lemma plus_inv (s : string) (b : bool) (cs : caps) (k : kont A) (x : A) :
  run (Plus p) b s cs k = Some x ->
  exists w rest, s = w +:+ rest /\ allb p w = true /\ w <> "" /\ k false rest cs = Some x.
Proof.
  destruct s as [|c s]; simpl; [discriminate|].
  destruct (p c) eqn:Hc; [|discriminate].
  intros (w & rest & -> & Hw & Hk)%greedy_inv.
  exists (String c w), rest. rewrite app_cons. simpl. rewrite Hc, Hw.
  repeat split; [discriminate|]. now destruct w.
Qed.

Lemma star_inv (s : string) (b : bool) (cs : caps) (k : kont A) (x : A) :
  run (Star p) b s cs k = Some x ->
  exists w rest, s = w +:+ rest /\ allb p w = true /\ k (after b w) rest cs = Some x.
Proof. apply greedy_inv. Qed.

Lemma cls_inv (s : string) (b : bool) (cs : caps) (k : kont A) (x : A) :
  run (Cls p) b s cs k = Some x ->
  exists c rest, s = String c rest /\ p c = true /\ k false rest cs = Some x.
Proof.
  destruct s as [|c s]; simpl; [discriminate|].
  destruct (p c) eqn:Hc; [|discriminate]. eauto.
Qed.

Lemma lit_inv (a : ascii) (s : string) (b : bool) (cs : caps) (k : kont A) (x : A) :
  run (Lit a) b s cs k = Some x ->
  exists rest, s = String a rest /\ k false rest cs = Some x.
Proof.
  destruct s as [|c s]; simpl; [discriminate|].
  destruct (Ascii.eqb a c) eqn:Hc; [|discriminate].
  apply Ascii.eqb_eq in Hc as ->. eauto.
Qed.

End Greedy.

(** The continuation is entered whenever a match attempt succeeds. *)
Lemma run_enters {A : Type} (r : regex) (b : bool) (s : string) (cs : caps)
    (k : kont A) (x : A) :
  run r b s cs k = Some x -> exists b' s' cs', k b' s' cs' = Some x.
Proof.
  revert b s cs k.
  induction r as [| | | a | p | p | p | r IHr | r1 IHr1 r2 IHr2]; intros b s cs k H.
  - now exists b, s, cs.
  - simpl in H. destruct b; [now exists true, s, cs|discriminate].
  - simpl in H. destruct s; [now exists b, "", cs|discriminate].
  - apply lit_inv in H as (s' & _ & H). now exists false, s', cs.
  - apply cls_inv in H as (_ & s' & _ & _ & H). now exists false, s', cs.
  - apply plus_inv in H as (_ & s' & _ & _ & _ & H). now exists false, s', cs.
  - apply star_inv in H as (w & s' & _ & _ & H). now exists (after b w), s', cs.
  - simpl in H. apply IHr in H as (b' & s' & cs' & H). eauto.
  - simpl in H. apply IHr1 in H as (? & ? & ? & H). now apply IHr2 in H.
Qed.

(** A match always has its whole-match entry. *)
Lemma exec_nonempty (r : regex) (b : bool) (s : string) (m : list string) (rest : string) :
  exec r b s = Some (m, rest) -> m <> [].
Proof.
  unfold exec. simpl. intros (? & ? & ? & H)%run_enters.
  injection H as <- _. discriminate.
Qed.

End RegexpFacts.

(** ** Loops *)

Section ForEach.
Context {A St : Type}.
Implicit Types (body : St -> A -> option St) (xs : list A) (st : St).

Lemma forEach_app body xs ys st :
  forEach body (xs ++ ys)%list st = forEach body xs st ≫= forEach body ys.
Proof.
  revert st. induction xs as [|x xs IH]; intros st; simpl; [reflexivity|].
  destruct (body st x) as [st'|]; simpl; [apply IH|reflexivity].
Qed.

Lemma forEach_invariant (I : St -> Prop) body :
  (forall st x st', body st x = Some st' -> I st -> I st') ->
  forall xs st st', forEach body xs st = Some st' -> I st -> I st'.
Proof.
  intros Hstep xs. induction xs as [|x xs IH]; intros st st' H Hst; simpl in H.
  - now injection H as <-.
  - destruct (body st x) as [st1|] eqn:Hx; simpl in H; [|discriminate]. eauto.
Qed.

(** Elements on which the body does nothing may be left out. *)
Lemma forEach_filter (keep : A -> bool) body xs st :
  (forall st' x, keep x = false -> body st' x = Some st') ->
  forEach body xs st = forEach body (List.filter keep xs) st.
Proof.
  intros Hskip. revert st. induction xs as [|x xs IH]; intros st; simpl; [reflexivity|].
  destruct (keep x) eqn:Hx; simpl.
  - destruct (body st x); simpl; [apply IH|reflexivity].
  - rewrite (Hskip st x Hx). simpl. apply IH.
Qed.

(** A body that acts through an optional effect of the element. *)
Lemma forEach_omap {W : Type} (f : A -> option W) (g : St -> W -> option St) xs st :
  forEach (fun st' x => match f x with Some w => g st' w | None => Some st' end) xs st
  = forEach g (omap f xs) st.
Proof.
  revert st. induction xs as [|x xs IH]; intros st; simpl; [reflexivity|].
  destruct (f x) as [w|]; simpl.
  - destruct (g st w); simpl; [apply IH|reflexivity].
  - apply IH.
Qed.

End ForEach.

(** Two loops whose bodies commute may be run in either order. *)
Section Commute.
Context {A B St : Type} (f : St -> A -> option St) (g : St -> B -> option St).
Context (PA : A -> Prop) (PB : B -> Prop).
Hypothesis fg : forall st a b, PA a -> PB b ->
  f st a ≫= (fun st' => g st' b) = g st b ≫= (fun st' => f st' a).

Lemma forEach_comm1 (xs : list A) (b : B) (st : St) :
  Forall PA xs -> PB b ->
  forEach f xs st ≫= (fun st' => g st' b) = g st b ≫= forEach f xs.
Proof.
  intros Hxs Hb. revert st. induction Hxs as [|x xs Hx Hxs IH]; intros st; simpl.
  - now destruct (g st b).
  - pose proof (fg st x b Hx Hb) as E.
    destruct (f st x) as [st1|]; simpl in *.
    + rewrite IH, E. now destruct (g st b).
    + destruct (g st b) as [st2|]; simpl in *; [now rewrite <- E|reflexivity].
Qed.

Lemma forEach_comm (xs : list A) (ys : list B) (st : St) :
  Forall PA xs -> Forall PB ys ->
  forEach f xs st ≫= forEach g ys = forEach g ys st ≫= forEach f xs.
Proof.
  intros Hxs Hys. revert st. induction Hys as [|y ys Hy Hys IH]; intros st; simpl.
  - now destruct (forEach f xs st).
  - transitivity ((forEach f xs st ≫= (fun st' => g st' y)) ≫= forEach g ys).
    { now destruct (forEach f xs st). }
    rewrite (forEach_comm1 xs y st Hxs Hy).
    destruct (g st y) as [st1|]; simpl; [apply IH|reflexivity].
Qed.

End Commute.

(** A loop whose steps overwrite: each step either makes an earlier one
    irrelevant or commutes with it, and whether a step panics is not
    changed by running another.  Such a loop, run again on its own
    result, changes nothing. *)
Section Overwrite.
Context {A St : Type} (step : St -> A -> option St).

Hypothesis again : forall x st, purely step (purely step st x) x = purely step st x.
Hypothesis law : forall x y,
  (forall st, purely step (purely step st x) y = purely step st y) \/
  (forall st,
     purely step (purely step st x) y = purely step (purely step st y) x).
Hypothesis stable : forall st x st' y,
  step st x = Some st' -> (is_Some (step st' y) <-> is_Some (step st y)).

Lemma overwrite_last (x : A) (V : list A) (st : St) :
  purely step (fold_left (purely step) V (purely step st x)) x
  = purely step (fold_left (purely step) V st) x.
Proof.
  revert st. induction V as [|y V IH]; intros st; simpl; [apply again|].
  destruct (law x y) as [E|E]; rewrite E; [reflexivity|apply IH].
Qed.

Lemma overwrite_twice (W V : list A) (st : St) :
  fold_left (purely step) W (fold_left (purely step) V (fold_left (purely step) W st))
  = fold_left (purely step) W (fold_left (purely step) V st).
Proof.
  revert V st. induction W as [|y W IH]; intros V st; simpl; [reflexivity|].
  pose proof (IH (V ++ [y])%list (purely step st y)) as E.
  rewrite !fold_left_app in E. simpl in E. rewrite E.
  now rewrite overwrite_last.
Qed.

Lemma forEach_purely (xs : list A) (st st' : St) :
  forEach step xs st = Some st' -> st' = fold_left (purely step) xs st.
Proof.
  revert st. induction xs as [|x xs IH]; intros st H; simpl in H.
  - now injection H.
  - simpl. unfold purely at 2. destruct (step st x) as [st1|]; simpl in *; [|discriminate].
    now apply IH.
Qed.

Lemma forEach_same_panics (xs : list A) (st st' : St) :
  forEach step xs st = Some st' -> same_panics step st st'.
Proof.
  revert st. induction xs as [|x xs IH]; intros st H y; simpl in H.
  - now injection H as <-.
  - destruct (step st x) as [st1|] eqn:Hx; simpl in H; [|discriminate].
    rewrite (IH _ H y). now apply stable with x.
Qed.

Lemma forEach_no_panic (xs : list A) (st st2 : St) :
  same_panics step st st2 -> is_Some (forEach step xs st) -> is_Some (forEach step xs st2).
Proof.
  revert st st2. induction xs as [|x xs IH]; intros st st2 Hp H; simpl in *; [eauto|].
  destruct (step st x) as [st1|] eqn:Hx; simpl in H; [|now destruct H].
  destruct (proj2 (Hp x)) as [st3 Hx2]; [now rewrite Hx|].
  rewrite Hx2. simpl. apply (IH st1); [|assumption].
  intros y. rewrite (stable _ _ _ y Hx2), (Hp y). symmetry. now apply stable with x.
Qed.

Theorem forEach_again (xs : list A) (st : St) :
  forEach step xs st ≫= forEach step xs = forEach step xs st.
Proof.
  destruct (forEach step xs st) as [st'|] eqn:H; simpl; [|reflexivity].
  destruct (forEach_no_panic xs st st') as [st2 H2].
  - now apply forEach_same_panics with xs.
  - now rewrite H.
  - rewrite H2. f_equal. apply forEach_purely in H, H2. subst st' st2.
    apply (overwrite_twice xs []).
Qed.

End Overwrite.

(** Three commuting loops that each may be run again may be run again
    together. *)
Lemma again_together {St : Type} (T K W : St -> option St) :
  (forall st, T st ≫= K = K st ≫= T) ->
  (forall st, T st ≫= W = W st ≫= T) ->
  (forall st, K st ≫= W = W st ≫= K) ->
  (forall st, T st ≫= T = T st) ->
  (forall st, K st ≫= K = K st) ->
  (forall st, W st ≫= W = W st) ->
  forall st,
    ((T st ≫= K) ≫= W) ≫= (fun st' => (T st' ≫= K) ≫= W) = (T st ≫= K) ≫= W.
Proof.
  intros TK TW KW TT KK WW st.
  destruct (T st) as [s1|] eqn:H1; simpl; [|reflexivity].
  destruct (K s1) as [s2|] eqn:H2; simpl; [|reflexivity].
  destruct (W s2) as [s3|] eqn:H3; simpl; [|reflexivity].
  assert (T s1 = Some s1) as T1. { pose proof (TT st) as E. now rewrite H1 in E. }
  assert (T s2 = Some s2) as T2.
  { pose proof (TK s1) as E. rewrite H2, T1 in E. simpl in E. congruence. }
  assert (T s3 = Some s3) as T3.
  { pose proof (TW s2) as E. rewrite H3, T2 in E. simpl in E. congruence. }
  assert (K s2 = Some s2) as K2. { pose proof (KK s1) as E. now rewrite H2 in E. }
  assert (K s3 = Some s3) as K3.
  { pose proof (KW s2) as E. rewrite H3, K2 in E. simpl in E. congruence. }
  assert (W s3 = Some s3) as W3. { pose proof (WW s2) as E. now rewrite H3 in E. }
  rewrite T3. simpl. rewrite K3. simpl. exact W3.
Qed.

(** ** Indexing *)

Lemma prefix_length (a b : string) :
  String.prefix a b = true -> (String.length a <= String.length b)%nat.
Proof.
  revert b. induction a as [|c a IH]; intros [|d b] H; simpl in *; try lia; try discriminate.
  destruct (ascii_dec c d); [|discriminate]. apply IH in H. lia.
Qed.

Lemma Index_bound (s substr : string) :
  (0 <= strings.Index s substr -> strings.Index s substr + len substr <= len s)%Z.
Proof.
  unfold len. induction s as [|c s IH]; cbn [strings.Index].
  - destruct (String.prefix substr "") eqn:Hp; [|lia].
    apply prefix_length in Hp. simpl in Hp. lia.
  - destruct (String.prefix substr (String c s)) eqn:Hp.
    + apply prefix_length in Hp. cbn [String.length] in *. lia.
    + destruct (strings.Index s substr <? 0)%Z eqn:Hi; [lia|].
      apply Z.ltb_ge in Hi. cbn [String.length]. lia.
Qed.

Lemma get_Some (s : string) (n : nat) :
  (n < String.length s)%nat -> is_Some (String.get n s).
Proof.
  revert n. induction s as [|c s IH]; intros n H; simpl in *; [lia|].
  destruct n; [eauto|]. apply IH. lia.
Qed.

Lemma byteAt_Some (s : string) (i : Z) :
  (0 <= i < len s)%Z -> is_Some (byteAt s i).
Proof.
  unfold byteAt, len. intros H.
  destruct (i <? 0)%Z eqn:Hi; [apply Z.ltb_lt in Hi; lia|].
  apply get_Some. lia.
Qed.

(** ** The loop bodies and their writes *)

Lemma prevOk_total (line m0 : string) :
  (0 <= strings.Index line m0)%Z -> is_Some (prevOk line (strings.Index line m0)).
Proof.
  intros H. unfold prevOk. pose proof (Index_bound line m0 H) as Hb.
  destruct (0 <? strings.Index line m0)%Z eqn:Hi; [|eauto].
  apply Z.ltb_lt in Hi.
  destruct (byteAt_Some line (strings.Index line m0 - 1)) as [c ->]; [|simpl; eauto].
  unfold len in *. lia.
Qed.

Lemma nextOk_total (line : string) (idx n : Z) :
  (0 <= idx)%Z -> (0 <= n)%Z -> is_Some (nextOk line idx n).
Proof.
  intros Hi Hn. unfold nextOk.
  destruct (idx + n <? len line)%Z eqn:Hlt; [|eauto].
  apply Z.ltb_lt in Hlt.
  destruct (byteAt_Some line (idx + n)) as [c ->]; [lia|simpl; eauto].
Qed.

Lemma stateTransitionStep_write (line : string) (e : BatteryHistoryV2Entry) (m : list string) :
  stateTransitionStep line e m
  = match stateTransitionWrite line m with Some w => commit e w | None => Some e end.
Proof.
  unfold stateTransitionStep, stateTransitionWrite, toggleAccepted.
  destruct (negb (strings.Contains (sub m 0) "=")); simpl; [|reflexivity].
  destruct (0 <=? strings.Index line (sub m 0))%Z eqn:Hi; simpl; [|reflexivity].
  apply Z.leb_le in Hi.
  destruct (prevOk_total line (sub m 0) Hi) as [pOk ->].
  destruct (nextOk_total line (strings.Index line (sub m 0)) (len (sub m 0)) Hi) as [nOk ->].
  { unfold len. lia. }
  simpl. destruct (pOk && nOk); reflexivity.
Qed.

Lemma keyValueStep_write (e : BatteryHistoryV2Entry) (m : list string) :
  keyValueStep e m = match keyValueWrite m with Some w => commit e w | None => Some e end.
Proof.
  unfold keyValueStep, keyValueWrite.
  repeat match goal with
  | |- context [if ?c then _ else _] =>
      destruct c; [try (destruct (strconv.ParseInt _ _)); reflexivity|]
  end.
  reflexivity.
Qed.

Lemma wakeReasonStep_write (e : BatteryHistoryV2Entry) (m : list string) :
  wakeReasonStep e m = match wakeReasonWrite m with Some w => commit e w | None => Some e end.
Proof. reflexivity. Qed.

(** Each pass commits its log of writes. *)
Lemma parseStateTransitionsV2_writes (e : BatteryHistoryV2Entry) (line : string) :
  parseStateTransitionsV2 e line = forEach commit (stateTransitionWrites line) e.
Proof.
  unfold parseStateTransitionsV2, stateTransitionWrites.
  rewrite <- forEach_omap. revert e.
  induction (Regexp.FindAllStringSubmatch stateTransitionPattern line) as [|m ms IH];
    intros e; simpl; [reflexivity|].
  rewrite stateTransitionStep_write.
  destruct (match stateTransitionWrite line m with Some w => commit e w | None => Some e end);
    simpl; [apply IH|reflexivity].
Qed.

Lemma parseKeyValuePairsV2_writes (e : BatteryHistoryV2Entry) (line : string) :
  parseKeyValuePairsV2 e line = forEach commit (keyValueWrites line) e.
Proof.
  unfold parseKeyValuePairsV2, keyValueWrites.
  rewrite <- forEach_omap. revert e.
  induction (Regexp.FindAllStringSubmatch keyValuePattern line) as [|m ms IH];
    intros e; simpl; [reflexivity|].
  rewrite keyValueStep_write.
  destruct (match keyValueWrite m with Some w => commit e w | None => Some e end);
    simpl; [apply IH|reflexivity].
Qed.

Lemma parseWakeReasonsV2_writes (e : BatteryHistoryV2Entry) (line : string) :
  parseWakeReasonsV2 e line = forEach commit (wakeReasonWrites line) e.
Proof.
  unfold parseWakeReasonsV2, wakeReasonWrites. now rewrite <- forEach_omap.
Qed.

(** ** The algebra of writes *)

(** Case analysis on an entry and on the presence of its three maps. *)
Ltac entry_cases e :=
  destruct e as [? ? ? ? ? ? ? ? ? ? ? ? ? ? [?|] [?|] [?|]].

Ltac by_cases :=
  let e := fresh "e" in
  intros e; entry_cases e; unfold purely; simpl;
  rewrite ?insert_insert_eq; reflexivity.

Lemma commit_again (w : write) (e : BatteryHistoryV2Entry) :
  purely commit (purely commit e w) w = purely commit e w.
Proof. revert e. destruct w; by_cases. Qed.

(** Of two writes, the later one makes the earlier irrelevant (same
    field, or same key of the same map), or they commute. *)
Lemma commit_law (w1 w2 : write) :
  (forall e, purely commit (purely commit e w1) w2 = purely commit e w2) \/
  (forall e, purely commit (purely commit e w1) w2 = purely commit (purely commit e w2) w1).
Proof.
  destruct w1 as [| | | | | | | | | | | k1 ? | k1 ? | k1], w2 as [| | | | | | | | | | | k2 ? | k2 ? | k2];
    try (left; by_cases); try (right; by_cases).
  all: destruct (decide (k1 = k2)) as [->|Hne]; [left; by_cases|right].
  all: intros e; entry_cases e; unfold purely; simpl; try reflexivity.
  all: now rewrite (insert_insert_ne _ k1 k2).
Qed.

Lemma commit_stable (e : BatteryHistoryV2Entry) (w : write) (e' : BatteryHistoryV2Entry)
    (w' : write) :
  commit e w = Some e' -> (is_Some (commit e' w') <-> is_Some (commit e w')).
Proof.
  intros H. entry_cases e; destruct w; simpl in H; try discriminate;
    injection H as <-; destruct w'; simpl; split; intros [? ?]; try discriminate; eauto.
Qed.

(** Writes of different passes commute, panics included. *)
Lemma commit_comm (e : BatteryHistoryV2Entry) (w1 w2 : write) :
  passOf w1 <> passOf w2 ->
  commit e w1 ≫= (fun e' => commit e' w2) = commit e w2 ≫= (fun e' => commit e' w1).
Proof.
  intros H. entry_cases e; destruct w1, w2; simpl in *; try reflexivity; congruence.
Qed.

(** A write never touches the timestamp or the millisecond offset, and
    does not depend on the timestamp. *)
Lemma commit_TimestampMs (e : BatteryHistoryV2Entry) (w : write) (e' : BatteryHistoryV2Entry) :
  commit e w = Some e' -> TimestampMs e' = TimestampMs e.
Proof.
  entry_cases e; destruct w; simpl; intros H; try discriminate; now injection H as <-.
Qed.

Lemma commit_set_Timestamp (t : time.Time) (e : BatteryHistoryV2Entry) (w : write) :
  commit (set_Timestamp t e) w = set_Timestamp t <$> commit e w.
Proof. entry_cases e; destruct w; reflexivity. Qed.

Lemma commit_present (e : BatteryHistoryV2Entry) (w : write) :
  mapsPresent e -> exists e', commit e w = Some e' /\ mapsPresent e'.
Proof.
  unfold mapsPresent. intros ([? Hs] & [? Hw] & [? Hr]).
  entry_cases e; simpl in *; try discriminate.
  destruct w; simpl; eexists; (split; [reflexivity|]); simpl; eauto.
Qed.

Lemma forEach_commit_present (ws : list write) (e : BatteryHistoryV2Entry) :
  mapsPresent e -> exists e', forEach commit ws e = Some e' /\ mapsPresent e'.
Proof.
  revert e. induction ws as [|w ws IH]; intros e He; simpl; [eauto|].
  destruct (commit_present e w He) as (e1 & -> & H1). simpl. now apply IH.
Qed.

(** ** The passes *)

Lemma stateTransitionWrites_pass (line : string) :
  Forall (fun w => passOf w = StatePass) (stateTransitionWrites line).
Proof.
  unfold stateTransitionWrites.
  induction (Regexp.FindAllStringSubmatch stateTransitionPattern line) as [|m ms IH];
    simpl; [constructor|].
  unfold stateTransitionWrite at 1. destruct (toggleAccepted line m); simpl; auto.
Qed.

Lemma keyValueWrite_pass (m : list string) (w : write) :
  keyValueWrite m = Some w -> passOf w = KeyValuePass.
Proof.
  unfold keyValueWrite.
  repeat match goal with
  | |- context [if ?c then _ else _] =>
      destruct c; [try (destruct (strconv.ParseInt _ _)); simpl; intros [= <-]; reflexivity|]
  end.
  discriminate.
Qed.

Lemma keyValueWrites_pass (line : string) :
  Forall (fun w => passOf w = KeyValuePass) (keyValueWrites line).
Proof.
  unfold keyValueWrites.
  induction (Regexp.FindAllStringSubmatch keyValuePattern line) as [|m ms IH];
    simpl; [constructor|].
  destruct (keyValueWrite m) as [w|] eqn:Hw; simpl; [|assumption].
  constructor; [now apply keyValueWrite_pass with m|assumption].
Qed.

Lemma wakeReasonWrites_pass (line : string) :
  Forall (fun w => passOf w = WakePass) (wakeReasonWrites line).
Proof.
  unfold wakeReasonWrites.
  induction (Regexp.FindAllStringSubmatch wakeReasonPattern line) as [|m ms IH];
    simpl; constructor; auto.
Qed.

Lemma commit_logs_comm (p1 p2 : pass) (ws1 ws2 : list write) (e : BatteryHistoryV2Entry) :
  p1 <> p2 ->
  Forall (fun w => passOf w = p1) ws1 -> Forall (fun w => passOf w = p2) ws2 ->
  forEach commit ws1 e ≫= forEach commit ws2 = forEach commit ws2 e ≫= forEach commit ws1.
Proof.
  intros Hp. apply forEach_comm. intros st a b Ha Hb. apply commit_comm. congruence.
Qed.

Lemma commit_logs_again (ws : list write) (e : BatteryHistoryV2Entry) :
  forEach commit ws e ≫= forEach commit ws = forEach commit ws e.
Proof.
  apply forEach_again.
  - intros x st. apply commit_again.
  - apply commit_law.
  - intros st x st' y. apply commit_stable.
Qed.

Lemma commuting_sym (r : string)
    (f g : BatteryHistoryV2Entry -> string -> option BatteryHistoryV2Entry) :
  commuting r f g -> commuting r g f.
Proof. intros H e. symmetry. apply H. Qed.

Lemma commuting_states_keyValues (r : string) :
  commuting r parseStateTransitionsV2 parseKeyValuePairsV2.
Proof.
  intros e. rewrite parseStateTransitionsV2_writes, parseKeyValuePairsV2_writes.
  rewrite (option_bind_ext_fun _ (forEach commit (keyValueWrites r)))
    by (intros; apply parseKeyValuePairsV2_writes).
  rewrite (option_bind_ext_fun (fun e' => parseStateTransitionsV2 e' r)
             (forEach commit (stateTransitionWrites r)))
    by (intros; apply parseStateTransitionsV2_writes).
  apply commit_logs_comm with StatePass KeyValuePass;
    [discriminate|apply stateTransitionWrites_pass|apply keyValueWrites_pass].
Qed.

Lemma commuting_states_wakeReasons (r : string) :
  commuting r parseStateTransitionsV2 parseWakeReasonsV2.
Proof.
  intros e. rewrite parseStateTransitionsV2_writes, parseWakeReasonsV2_writes.
  rewrite (option_bind_ext_fun _ (forEach commit (wakeReasonWrites r)))
    by (intros; apply parseWakeReasonsV2_writes).
  rewrite (option_bind_ext_fun (fun e' => parseStateTransitionsV2 e' r)
             (forEach commit (stateTransitionWrites r)))
    by (intros; apply parseStateTransitionsV2_writes).
  apply commit_logs_comm with StatePass WakePass;
    [discriminate|apply stateTransitionWrites_pass|apply wakeReasonWrites_pass].
Qed.

Lemma commuting_keyValues_wakeReasons (r : string) :
  commuting r parseKeyValuePairsV2 parseWakeReasonsV2.
Proof.
  intros e. rewrite parseKeyValuePairsV2_writes, parseWakeReasonsV2_writes.
  rewrite (option_bind_ext_fun _ (forEach commit (wakeReasonWrites r)))
    by (intros; apply parseWakeReasonsV2_writes).
  rewrite (option_bind_ext_fun (fun e' => parseKeyValuePairsV2 e' r)
             (forEach commit (keyValueWrites r)))
    by (intros; apply parseKeyValuePairsV2_writes).
  apply commit_logs_comm with KeyValuePass WakePass;
    [discriminate|apply keyValueWrites_pass|apply wakeReasonWrites_pass].
Qed.

Lemma extractionPasses_commuting (r : string)
    (f g : BatteryHistoryV2Entry -> string -> option BatteryHistoryV2Entry) :
  In f extractionPasses -> In g extractionPasses -> commuting r f g.
Proof.
  pose proof (commuting_states_keyValues r). pose proof (commuting_states_wakeReasons r).
  pose proof (commuting_keyValues_wakeReasons r).
  unfold extractionPasses. simpl.
  intros [<-|[<-|[<-|[]]]] [<-|[<-|[<-|[]]]];
    solve [assumption | now apply commuting_sym | intros e; reflexivity].
Qed.

(** Passes that commute pairwise may be run in any order. *)
Lemma runPasses_Permutation (r : string)
    (l l' : list (BatteryHistoryV2Entry -> string -> option BatteryHistoryV2Entry)) :
  Permutation l l' ->
  (forall f g, In f l -> In g l -> commuting r f g) ->
  forall e, runPasses l r e = runPasses l' r e.
Proof.
  unfold runPasses.
  induction 1 as [|x l l' Hp IH|x y l|l l1 l2 Hp1 IH1 Hp2 IH2]; intros Hc e; simpl.
  - reflexivity.
  - destruct (x e r); simpl; [|reflexivity]. apply IH. intros; apply Hc; now right.
  - pose proof (Hc y x (or_introl eq_refl) (or_intror (or_introl eq_refl)) e) as E.
    destruct (y e r) as [e1|], (x e r) as [e2|]; simpl in *.
    + destruct (x e1 r) as [e3|], (y e2 r) as [e4|]; simpl in *; congruence.
    + destruct (x e1 r); simpl in *; [discriminate|reflexivity].
    + destruct (y e2 r); simpl in *; [discriminate|reflexivity].
    + reflexivity.
  - rewrite IH1 by assumption. apply IH2.
    intros f g Hf Hg.
    apply Hc; [apply (Permutation_in _ (Permutation_sym Hp1) Hf)
              |apply (Permutation_in _ (Permutation_sym Hp1) Hg)].
Qed.

Lemma runPasses_three (r : string)
    (f g h : BatteryHistoryV2Entry -> string -> option BatteryHistoryV2Entry)
    (e : BatteryHistoryV2Entry) :
  runPasses [f; g; h] r e = (f e r ≫= (fun e' => g e' r)) ≫= (fun e' => h e' r).
Proof.
  unfold runPasses. simpl. destruct (f e r) as [e1|]; simpl; [|reflexivity].
  destruct (g e1 r) as [e2|]; simpl; [|reflexivity]. now destruct (h e2 r).
Qed.

Lemma pass_again_states (r : string) (e : BatteryHistoryV2Entry) :
  parseStateTransitionsV2 e r ≫= (fun e' => parseStateTransitionsV2 e' r)
  = parseStateTransitionsV2 e r.
Proof.
  rewrite (option_bind_ext_fun _ (forEach commit (stateTransitionWrites r)))
    by (intros; apply parseStateTransitionsV2_writes).
  rewrite parseStateTransitionsV2_writes. apply commit_logs_again.
Qed.

Lemma pass_again_keyValues (r : string) (e : BatteryHistoryV2Entry) :
  parseKeyValuePairsV2 e r ≫= (fun e' => parseKeyValuePairsV2 e' r)
  = parseKeyValuePairsV2 e r.
Proof.
  rewrite (option_bind_ext_fun _ (forEach commit (keyValueWrites r)))
    by (intros; apply parseKeyValuePairsV2_writes).
  rewrite parseKeyValuePairsV2_writes. apply commit_logs_again.
Qed.

Lemma pass_again_wakeReasons (r : string) (e : BatteryHistoryV2Entry) :
  parseWakeReasonsV2 e r ≫= (fun e' => parseWakeReasonsV2 e' r)
  = parseWakeReasonsV2 e r.
Proof.
  rewrite (option_bind_ext_fun _ (forEach commit (wakeReasonWrites r)))
    by (intros; apply parseWakeReasonsV2_writes).
  rewrite parseWakeReasonsV2_writes. apply commit_logs_again.
Qed.

(** With its maps present an entry goes through the three passes
    without a panic, and keeps its maps. *)
Lemma runPasses_present (r : string) (e : BatteryHistoryV2Entry) :
  mapsPresent e -> exists e', runPasses extractionPasses r e = Some e' /\ mapsPresent e'.
Proof.
  intros He. unfold runPasses, extractionPasses. simpl.
  rewrite parseStateTransitionsV2_writes.
  destruct (forEach_commit_present (stateTransitionWrites r) e He) as (e1 & -> & H1). simpl.
  rewrite parseKeyValuePairsV2_writes.
  destruct (forEach_commit_present (keyValueWrites r) e1 H1) as (e2 & -> & H2). simpl.
  rewrite parseWakeReasonsV2_writes.
  destruct (forEach_commit_present (wakeReasonWrites r) e2 H2) as (e3 & -> & H3). simpl.
  eauto.
Qed.

(** C8. The three extraction passes are order-independent and stable
    under a second run: from every entry and on every remainder, the
    passes run in any order (any permutation of the order of the source)
    give the same result, running the three of them once more on the
    result changes nothing, and with the three maps present the result
    is an entry (no pass panics). *)
Theorem passes_order_independent_and_rerun_stable (r : string) (e : BatteryHistoryV2Entry) :
  (forall order, Permutation order extractionPasses ->
     runPasses order r e = runPasses extractionPasses r e) /\
  runPasses extractionPasses r e ≫= runPasses extractionPasses r
    = runPasses extractionPasses r e /\
  (mapsPresent e -> is_Some (runPasses extractionPasses r e)).
Proof.
  split; [|split].
  - intros order Hp. symmetry. apply runPasses_Permutation; [now apply Permutation_sym|].
    apply extractionPasses_commuting.
  - unfold extractionPasses.
    rewrite (option_bind_ext_fun _ (fun e' =>
      (parseStateTransitionsV2 e' r ≫= (fun e1 => parseKeyValuePairsV2 e1 r))
        ≫= (fun e2 => parseWakeReasonsV2 e2 r))) by (intros; apply runPasses_three).
    rewrite runPasses_three.
    apply (again_together (fun e' => parseStateTransitionsV2 e' r)
             (fun e' => parseKeyValuePairsV2 e' r) (fun e' => parseWakeReasonsV2 e' r)).
    + apply commuting_states_keyValues.
    + apply commuting_states_wakeReasons.
    + apply commuting_keyValues_wakeReasons.
    + apply pass_again_states.
    + apply pass_again_keyValues.
    + apply pass_again_wakeReasons.
  - intros He. destruct (runPasses_present r e He) as (e' & -> & _). eauto.
Qed.

Lemma passes_order_independent_witness :
  runPasses [parseWakeReasonsV2; parseStateTransitionsV2; parseKeyValuePairsV2]
    "+running volt=4170" freshEntry
  = runPasses extractionPasses "+running volt=4170" freshEntry
  /\ is_Some (runPasses extractionPasses "+running volt=4170" freshEntry).
Proof.
  split.
  - apply (proj1 (passes_order_independent_and_rerun_stable "+running volt=4170" freshEntry)).
    unfold extractionPasses.
    apply perm_trans with [parseStateTransitionsV2; parseWakeReasonsV2; parseKeyValuePairsV2];
      [apply perm_swap|apply perm_skip, perm_swap].
  - apply (proj2 (proj2 (passes_order_independent_and_rerun_stable "+running volt=4170" freshEntry))).
    unfold mapsPresent. simpl. eauto.
Defined.

(** ** The state pass: the last toggle of a name wins *)








(** The remainder of the specification's example, in full. *)
Example toggles_running_wifi :
  States <$> parseStateTransitionsV2 freshEntry "+running +wifi -running"
  = Some (Some (<["running" := false]> (<["wifi" := true]> ∅))).
Proof. vm_compute. reflexivity. Qed.

(** ** The line parser and its passes *)

Lemma ParseHistoryV2Line_passes (now : time.Time) (line : string) :
  ParseHistoryV2Line now line
  = if (length (lineMatches line) =? 0)%nat then Some (None, Some errInvalidFormat)
    else runPasses extractionPasses (sub (lineMatches line) 5)
           (set_Timestamp (timestampOf now (lineMatches line)) freshEntry)
         ≫= (fun e => Some (Some e, None)).
Proof.
  unfold ParseHistoryV2Line, lineMatches, timestampOf, timestampStr, runPasses, extractionPasses.
  destruct (length _ =? 0)%nat; [reflexivity|]. simpl.
  destruct (time.Parse _); simpl;
    (destruct (parseStateTransitionsV2 _ _) as [e1|]; simpl; [|reflexivity];
     destruct (parseKeyValuePairsV2 _ _) as [e2|]; simpl; [|reflexivity];
     destruct (parseWakeReasonsV2 _ _) as [e3|]; reflexivity).
Qed.

Lemma extractionPasses_writes
    (f : BatteryHistoryV2Entry -> string -> option BatteryHistoryV2Entry) (r : string) :
  In f extractionPasses -> exists ws, forall e, f e r = forEach commit ws e.
Proof.
  unfold extractionPasses. simpl. intros [<-|[<-|[<-|[]]]].
  - exists (stateTransitionWrites r). intros; apply parseStateTransitionsV2_writes.
  - exists (keyValueWrites r). intros; apply parseKeyValuePairsV2_writes.
  - exists (wakeReasonWrites r). intros; apply parseWakeReasonsV2_writes.
Qed.

Lemma forEach_commit_TimestampMs (ws : list write) (e e' : BatteryHistoryV2Entry) :
  forEach commit ws e = Some e' -> TimestampMs e' = TimestampMs e.
Proof.
  intros H.
  apply (forEach_invariant (fun x => TimestampMs x = TimestampMs e) commit) with ws e;
    [|assumption|reflexivity].
  intros st x st' Hx Hst. rewrite <- Hst. now apply commit_TimestampMs with x.
Qed.

Lemma forEach_commit_set_Timestamp (t : time.Time) (ws : list write)
    (e : BatteryHistoryV2Entry) :
  forEach commit ws (set_Timestamp t e) = set_Timestamp t <$> forEach commit ws e.
Proof.
  revert e. induction ws as [|w ws IH]; intros e; simpl; [reflexivity|].
  rewrite commit_set_Timestamp. destruct (commit e w) as [e1|]; simpl; [apply IH|reflexivity].
Qed.

Lemma runPasses_TimestampMs
    (order : list (BatteryHistoryV2Entry -> string -> option BatteryHistoryV2Entry))
    (r : string) (e e' : BatteryHistoryV2Entry) :
  (forall f, In f order -> In f extractionPasses) ->
  runPasses order r e = Some e' -> TimestampMs e' = TimestampMs e.
Proof.
  unfold runPasses. revert e. induction order as [|f order IH]; intros e Hin H; simpl in H.
  - now injection H as <-.
  - destruct (f e r) as [e1|] eqn:Hf; simpl in H; [|discriminate].
    rewrite (IH e1) by (auto; intros; apply Hin; now right).
    destruct (extractionPasses_writes f r) as [ws Hws]; [apply Hin; now left|].
    rewrite Hws in Hf. now apply forEach_commit_TimestampMs with ws.
Qed.

Lemma runPasses_set_Timestamp (t : time.Time)
    (order : list (BatteryHistoryV2Entry -> string -> option BatteryHistoryV2Entry))
    (r : string) (e : BatteryHistoryV2Entry) :
  (forall f, In f order -> In f extractionPasses) ->
  runPasses order r (set_Timestamp t e) = set_Timestamp t <$> runPasses order r e.
Proof.
  unfold runPasses. revert e. induction order as [|f order IH]; intros e Hin; simpl.
  - reflexivity.
  - destruct (extractionPasses_writes f r) as [ws Hws]; [apply Hin; now left|].
    rewrite !Hws, forEach_commit_set_Timestamp.
    destruct (forEach commit ws e) as [e1|]; simpl; [|reflexivity].
    apply IH. intros; apply Hin; now right.
Qed.

(** C10. Whenever [ParseHistoryV2Line] accepts a line, the entry it
    returns has its millisecond offset [TimestampMs] at 0, and so the
    CSV entry made from it starts at 0. *)
Theorem parsed_TimestampMs_zero (now : time.Time) (line : string)
    (e : BatteryHistoryV2Entry) (err : option string) :
  ParseHistoryV2Line now line = Some (Some e, err) ->
  TimestampMs e = 0%Z /\ csv.Start (ConvertToCSVEntry e) = 0%Z.
Proof.
  rewrite ParseHistoryV2Line_passes.
  destruct (length (lineMatches line) =? 0)%nat; [discriminate|].
  destruct (runPasses _ _ _) as [e1|] eqn:H; simpl; [|discriminate].
  intros [= <- _]. apply runPasses_TimestampMs in H; [|auto].
  simpl in *. auto.
Qed.

Lemma parsed_TimestampMs_zero_witness :
  exists e,
    ParseHistoryV2Line time.zero "01-11 12:11:14.405 075 c4002820 volt=4170" = Some (Some e, None)
    /\ TimestampMs e = 0%Z /\ csv.Start (ConvertToCSVEntry e) = 0%Z.
Proof.
  eexists. split; [vm_compute; reflexivity|].
  apply (parsed_TimestampMs_zero time.zero "01-11 12:11:14.405 075 c4002820 volt=4170" _ None).
  vm_compute. reflexivity.
Defined.

(** ** Determinism of the line parser *)

Lemma ParseHistoryV2Line_clock (now : time.Time) (line : string) :
  ParseHistoryV2Line now line
  = if (length (lineMatches line) =? 0)%nat then Some (None, Some errInvalidFormat)
    else (set_Timestamp (timestampOf now (lineMatches line))
            <$> runPasses extractionPasses (sub (lineMatches line) 5) freshEntry)
         ≫= (fun e => Some (Some e, None)).
Proof.
  rewrite ParseHistoryV2Line_passes.
  destruct (length (lineMatches line) =? 0)%nat; [reflexivity|].
  now rewrite runPasses_set_Timestamp by auto.
Qed.

(** C9, as stated: two invocations on the same line, whatever the wall
    clock reads during each, return equal results.  It fails on a line
    whose month-day is not a day of the calendar: the entry then carries
    the clock reading. *)
Lemma ParseHistoryV2Line_not_deterministic :
  ~ (forall now1 now2 line, ParseHistoryV2Line now1 line = ParseHistoryV2Line now2 line).
Proof.
  intros H.
  specialize (H time.zero (time.Date 2026 10 30 0 0 0 0)
                "02-30 12:00:00.000 075 c4002820 status=full").
  vm_compute in H. discriminate H.
Qed.

(** C9, amended.  Two invocations on the same line return the same
    failure, or entries equal in every field other than Timestamp; the
    results are equal in full whenever the line does not match the
    grammar or its month-day and time form a valid timestamp of the
    year the parser assumes. *)
Theorem ParseHistoryV2Line_deterministic_up_to_clock (now1 now2 : time.Time) (line : string) :
  withoutTimestamp (ParseHistoryV2Line now1 line)
    = withoutTimestamp (ParseHistoryV2Line now2 line) /\
  (lineMatches line = [] \/ is_Some (time.Parse (timestampStr (lineMatches line))) ->
   ParseHistoryV2Line now1 line = ParseHistoryV2Line now2 line).
Proof.
  rewrite !ParseHistoryV2Line_clock. split.
  - destruct (length (lineMatches line) =? 0)%nat; [reflexivity|].
    destruct (runPasses _ _ _) as [e|]; simpl; [|reflexivity]. now destruct e.
  - intros [Hm|[t Ht]].
    + now rewrite Hm.
    + unfold timestampOf. now rewrite Ht.
Qed.

Lemma ParseHistoryV2Line_deterministic_witness :
  is_Some (time.Parse (timestampStr
             (lineMatches "01-11 12:11:14.405 075 c4002820 status=discharging"))) /\
  ParseHistoryV2Line time.zero "01-11 12:11:14.405 075 c4002820 status=discharging"
  = ParseHistoryV2Line (time.Date 2026 10 30 0 0 0 0)
      "01-11 12:11:14.405 075 c4002820 status=discharging".
Proof.
  assert (is_Some (time.Parse (timestampStr
            (lineMatches "01-11 12:11:14.405 075 c4002820 status=discharging")))) as H.
  { vm_compute. eauto. }
  split; [exact H|].
  apply (proj2 (ParseHistoryV2Line_deterministic_up_to_clock time.zero
                  (time.Date 2026 10 30 0 0 0 0)
                  "01-11 12:11:14.405 075 c4002820 status=discharging")).
  right. exact H.
Defined.

(** ** Projection to a CSV entry *)

(** C4, as stated: the value joins the fragments of exactly the fields
    that are non-empty or non-zero.  It fails on a negative number, which
    is not zero and yet is left out. *)
Lemma ConvertToCSVEntry_not_nonZero :
  ~ (forall e, ConvertToCSVEntry e = projection nonZero e).
Proof.
  intros H. specialize (H (set_Temperature (-50) freshEntry)).
  vm_compute in H. discriminate H.
Qed.

(** Such an entry is what the parser returns for a temperature below
    zero. *)
Example negative_temperature_parsed :
  match ParseHistoryV2Line time.zero "01-11 12:11:14.405 075 c4002820 temp=-50" with
  | Some (Some e, None) => Temperature e = (-50)%Z /\ csv.Value (ConvertToCSVEntry e) = ""
  | _ => False
  end.
Proof. vm_compute. split; reflexivity. Qed.

(** C4, amended.  [ConvertToCSVEntry] maps every entry to the record
    with description Battery state change, category Battery State,
    source system, the entry's millisecond offset as start, and as value
    the comma-joined fragments status=, health=, volt=, temp=, in that
    order, of exactly the fields that are non-empty (status, health) or
    strictly positive (voltage, temperature); an empty, zero or negative
    field has no fragment. *)
Theorem ConvertToCSVEntry_projection (e : BatteryHistoryV2Entry) :
  ConvertToCSVEntry e = projection positive e.
Proof.
  unfold ConvertToCSVEntry, projection, fragments, positive, appendIf.
  destruct (String.eqb (Status e) ""), (String.eqb (Health e) ""),
    (0 <? Voltage e)%Z, (0 <? Temperature e)%Z; reflexivity.
Qed.

(** The entry of the specification's example. *)
Example projection_discharging :
  csv.Value (ConvertToCSVEntry
    (set_Status "discharging" (set_Voltage 4170 freshEntry)))
  = "status=discharging,volt=4170".
Proof. reflexivity. Qed.

(** ** The scalar pass: skipped and ignored assignments *)

Lemma ignored_no_write (m : list string) : ignored m = true -> keyValueWrite m = None.
Proof.
  unfold ignored, numericKind, recognized, vocabulary, keyValueWrite.
  generalize (sub m 1) (sub m 2). intros key value.
  repeat match goal with
  | |- context [String.eqb key ?c] =>
      destruct (String.eqb_spec key c) as [->|?];
      [simpl; try destruct (strconv.ParseInt _ _); simpl; intros; solve [discriminate|reflexivity]|]
  end.
  reflexivity.
Qed.

Lemma ignored_step (e : BatteryHistoryV2Entry) (m : list string) :
  ignored m = true -> keyValueStep e m = Some e.
Proof. intros H. now rewrite keyValueStep_write, (ignored_no_write m H). Qed.

(** C5. In the scalar pass a match whose identifier is numeric (volt,
    temp, wifi_signal_strength, charge, modemRailChargemAh,
    wifiRailChargemAh) and whose value does not parse as its kind, or
    whose identifier is outside the vocabulary, leaves the entry as it
    is, every field and map unchanged, without any failure; and the pass
    over a remainder is the loop over the matches that are left, so the
    other tokens are all processed. *)
Theorem keyValue_skips_and_ignores (e : BatteryHistoryV2Entry) (line : string) :
  (forall e' m, ignored m = true -> keyValueStep e' m = Some e') /\
  parseKeyValuePairsV2 e line
  = forEach keyValueStep
      (List.filter (fun m => negb (ignored m))
         (Regexp.FindAllStringSubmatch keyValuePattern line)) e.
Proof.
  split.
  - intros e' m. apply ignored_step.
  - unfold parseKeyValuePairsV2. apply forEach_filter.
    intros st x Hx. apply ignored_step. now destruct (ignored x).
Qed.

Lemma keyValue_skips_witness :
  ignored ["volt=abc"; "volt"; "abc"] = true /\
  keyValueStep freshEntry ["volt=abc"; "volt"; "abc"] = Some freshEntry.
Proof.
  split; [reflexivity|].
  apply (proj1 (keyValue_skips_and_ignores freshEntry "volt=abc")). reflexivity.
Defined.

(** A value that is not a number, one outside the 32-bit range and an
    unknown identifier are passed over; the tokens around them are
    read. *)
Example keyValue_skips_example :
  (fun e => (Voltage e, Temperature e, WiFiSignalStrength e, ChargeMicroAh e, Status e))
    <$> parseKeyValuePairsV2 freshEntry
          "volt=abc temp=254 wifi_signal_strength=4294967296 foo=1 charge=3887 status=full"
  = Some (0, 254, 0, 3887, "full")%Z.
Proof. vm_compute. reflexivity. Qed.

(** ** The toggle pass and the position of a match *)

(** C1, at the remainder [+wifi_radio +wifi].  The toggle [+wifi] is
    matched at offset 12, has no equals sign, follows a blank and ends
    the remainder, so the three conditions hold for it; the pass looks
    for its text with [strings.Index], finds it at offset 0 inside
    [+wifi_radio], tests the byte after that occurrence (an
    underscore), and records nothing for wifi. *)
Theorem toggle_after_longer_token_dropped :
  Regexp.FindAllStringSubmatchIndex stateTransitionPattern "+wifi_radio +wifi"
    = [(0%nat, ["+wifi_radio"; "+"; "wifi_radio"]); (12%nat, ["+wifi"; "+"; "wifi"])] /\
  boundedToggle "+wifi_radio +wifi" 12 ["+wifi"; "+"; "wifi"] = true /\
  strings.Index "+wifi_radio +wifi" "+wifi" = 0%Z /\
  toggleAccepted "+wifi_radio +wifi" ["+wifi"; "+"; "wifi"] = false /\
  States <$> parseStateTransitionsV2 freshEntry "+wifi_radio +wifi"
    = Some (Some (<["wifi_radio" := true]> ∅)).
Proof. vm_compute. repeat split; reflexivity. Qed.

(** The other way round: a toggle that is not bounded where it is
    matched is recorded when its text occurs, bounded, earlier. *)
Example toggle_unbounded_recorded :
  boundedToggle "+a -a x+a" 7 ["+a"; "+"; "a"] = false /\
  States <$> parseStateTransitionsV2 freshEntry "+a -a x+a"
    = Some (Some (<["a" := true]> ∅)).
Proof. vm_compute. split; reflexivity. Qed.

(** The two remainders the specification names behave as it says. *)
Example toggle_wifi_radio_extra :
  States <$> parseStateTransitionsV2 freshEntry "+wifi_radio_extra=1" = Some (Some ∅).
Proof. vm_compute. reflexivity. Qed.

Example toggle_wake_lock :
  States <$> parseStateTransitionsV2 freshEntry
    ("+wake_lock=1000:" +:+ quote +:+ "*alarm*:TIME_TICK" +:+ quote) = Some (Some ∅).
Proof. vm_compute. reflexivity. Qed.

(** ** Format detection *)

Lemma detectLines_first (pre : list string) (line : string) (post : list string) :
  Forall (fun l => legacyLine l = false /\ format2Raw l = false) pre ->
  (legacyLine line = true -> detectLines (pre ++ line :: post)%list = 1%Z) /\
  (format2Raw line = true -> detectLines (pre ++ line :: post)%list = 2%Z).
Proof.
  unfold format2Raw, legacyLine.
  induction 1 as [|l pre [Hl Hf] Hpre IH]; simpl.
  - destruct (strings.HasPrefix _ _); simpl; [split; [reflexivity|discriminate]|].
    split; [discriminate|]. now intros ->.
  - rewrite Hl in *. simpl in Hf. rewrite Hf. exact IH.
Qed.

Lemma detectLines_none (lines : list string) :
  Forall (fun l => legacyLine l = false /\ format2Raw l = false) lines ->
  detectLines lines = 1%Z.
Proof.
  unfold format2Raw, legacyLine.
  induction 1 as [|l pre [Hl Hf] Hpre IH]; simpl; [reflexivity|].
  rewrite Hl in *. simpl in Hf. now rewrite Hf.
Qed.

(** C3, at a document whose only line is an indented Format-2 line.
    The parser, which trims the line before it matches the grammar,
    accepts it; the detector matches the grammar on the line as it
    stands, does not find it, and answers 1. *)
Theorem indented_line_not_detected :
  (exists e, ParseHistoryV2Line time.zero
               "  01-11 12:11:14.405 075 c4002820 status=discharging" = Some (Some e, None)) /\
  Regexp.MatchString historyLinePatternV2
    (strings.TrimSpace "  01-11 12:11:14.405 075 c4002820 status=discharging") = true /\
  DetectHistoryFormatVersion "  01-11 12:11:14.405 075 c4002820 status=discharging" = 1%Z.
Proof. split; [eexists|split]; vm_compute; reflexivity. Qed.

(** The examples of the specification: document order decides, and the
    empty document is version 1. *)
Example detect_examples :
  DetectHistoryFormatVersion "" = 1%Z /\
  DetectHistoryFormatVersion (String.concat (String Chr.nl "")
    ["9,h,0,Bl=52"; "01-11 12:11:14.405 075 c4002820 status=discharging"]) = 1%Z /\
  DetectHistoryFormatVersion (String.concat (String Chr.nl "")
    ["Battery History"; "01-11 12:11:14.405 075 c4002820 status=discharging"; "9,h,0,Bl=52"])
    = 2%Z.
Proof. vm_compute. repeat split; reflexivity. Qed.

(** ** The patterns *)

Import Regexp RegexpFacts.

Section RunEquations.
Context {A : Type}.
Implicit Types (b : bool) (s : string) (cs : caps) (k : kont A).

Lemma run_cat r1 r2 b s cs k :
  run (Cat r1 r2) b s cs k = run r1 b s cs (fun b' s' cs' => run r2 b' s' cs' k).
Proof. reflexivity. Qed.

Lemma run_group r b s cs k :
  run (Group r) b s cs k = run r b s cs (fun b' s' cs' => k b' s' (taken s s' :: cs')).
Proof. reflexivity. Qed.

Lemma run_eps b s cs k : run Eps b s cs k = k b s cs.
Proof. reflexivity. Qed.

Lemma run_bol s cs k : run Bol true s cs k = k true s cs.
Proof. reflexivity. Qed.

Lemma run_eol b cs k : run Eol b "" cs k = k b "" cs.
Proof. reflexivity. Qed.

Lemma run_cls p c b s cs k : p c = true -> run (Cls p) b (String c s) cs k = k false s cs.
Proof. intros H. simpl. now rewrite H. Qed.

Lemma run_lit a b s cs k : run (Lit a) b (String a s) cs k = k false s cs.
Proof. simpl. now rewrite Ascii.eqb_refl. Qed.

Lemma run_star p b s cs k : run (Star p) b s cs k = greedy p b s cs k.
Proof. reflexivity. Qed.

Lemma bol_inv b s cs k (x : A) :
  run Bol b s cs k = Some x -> b = true /\ k true s cs = Some x.
Proof. destruct b; simpl; [auto|discriminate]. Qed.

Lemma eol_inv b s cs k (x : A) :
  run Eol b s cs k = Some x -> s = "" /\ k b "" cs = Some x.
Proof. destruct s; simpl; [auto|discriminate]. Qed.

End RunEquations.

#[local] Arguments Regexp.run : simpl never.
#[local] Arguments Regexp.greedy : simpl never.

(** The classes that follow one another in the line pattern are
    disjoint. *)
Ltac by_bytes c := destruct c as [[] [] [] [] [] [] [] []]; vm_compute; congruence.

Lemma digit_not_space (c : ascii) : Chr.digit c = true -> Chr.space c = false.
Proof. by_bytes c. Qed.

Lemma hex_not_space (c : ascii) : Chr.hex c = true -> Chr.space c = false.
Proof. by_bytes c. Qed.

Lemma space_not_digit (c : ascii) : Chr.space c = true -> Chr.digit c = false.
Proof. by_bytes c. Qed.

Lemma space_not_hex (c : ascii) : Chr.space c = true -> Chr.hex c = false.
Proof. by_bytes c. Qed.

Lemma nonEmptyRun_inv (p : ascii -> bool) (s : string) :
  nonEmptyRun p s = true -> allb p s = true /\ s <> "".
Proof.
  unfold nonEmptyRun. intros [H1 H2]%andb_prop. split; [assumption|].
  intros ->. discriminate.
Qed.

Lemma nonEmptyRun_intro (p : ascii -> bool) (s : string) :
  allb p s = true -> s <> "" -> nonEmptyRun p s = true.
Proof.
  unfold nonEmptyRun. intros -> H. destruct s; [congruence|reflexivity].
Qed.

Lemma nonEmptyRun_starts (p : ascii -> bool) (s t : string) :
  nonEmptyRun p s = true -> starts p (s +:+ t) = true.
Proof.
  destruct s as [|c s]; [discriminate|]. unfold nonEmptyRun. simpl.
  now intros [[-> _]%andb_prop _]%andb_prop.
Qed.

(** The longest run of a class at the head of a string. *)
Lemma span_exists (p : ascii -> bool) (s : string) :
  exists w r, s = w +:+ r /\ allb p w = true /\ starts p r = false.
Proof.
  induction s as [|c s (w & r & -> & Hw & Hr)].
  - exists "", "". auto.
  - destruct (p c) eqn:Hc.
    + exists (String c w), r. rewrite app_cons. simpl. rewrite Hc. auto.
    + exists "", (String c (w +:+ r)). simpl. auto.
Qed.

Lemma starts_other (p p' : ascii -> bool) (s : string) :
  (forall c, p c = true -> p' c = false) -> starts p s = true -> starts p' s = false.
Proof. destruct s as [|c s]; simpl; [discriminate|auto]. Qed.

Lemma shaped_cons (p : ascii -> bool) (ps : list (ascii -> bool)) (s : string) :
  shaped (p :: ps) s = true ->
  exists c s', s = String c s' /\ p c = true /\ shaped ps s' = true.
Proof.
  destruct s as [|c s]; simpl; [discriminate|].
  intros [H1 H2]%andb_prop. eauto.
Qed.

Lemma shaped_nil (s : string) : shaped [] s = true -> s = "".
Proof. destruct s; [reflexivity|discriminate]. Qed.

Ltac shape_inv H :=
  repeat (let Hc := fresh "Hc" in apply shaped_cons in H as (? & ? & -> & Hc & H));
  apply shaped_nil in H as ->;
  repeat match goal with
  | Hs : Chr.same _ ?c = true |- _ => apply Ascii.eqb_eq in Hs; subst c
  end.

Lemma starts_run (p p' : ascii -> bool) (w t : string) :
  (forall c, p c = true -> p' c = false) ->
  allb p w = true -> w <> "" -> starts p' (w +:+ t) = false.
Proof.
  intros Hd Hw Hne. destruct w as [|c w]; [congruence|].
  simpl in *. apply andb_prop in Hw as [Hc _]. auto.
Qed.

Ltac unfold_pattern :=
  cbv [historyLinePatternV2 keyValuePattern stateTransitionPattern wakeReasonPattern
       cat digits lit foldr repeat map list_ascii_of_string].

Ltac step :=
  first [ rewrite run_cat | rewrite run_group | rewrite run_eps | rewrite run_bol
        | rewrite run_lit | rewrite run_cls by assumption | rewrite run_eol ];
  cbv beta.

Lemma exec_of_Format2 (s : string) :
  Format2 s -> exists m, exec historyLinePatternV2 true s = Some (m, "").
Proof.
  intros (md & ws1 & tm & ws2 & sq & ws3 & hx & ws4 & rest & -> & Hmd & H1 & Htm & H2
          & Hsq & H3 & Hhx & H4 & Hrest).
  destruct (span_exists Chr.space rest) as (ws5 & rest' & -> & H5 & Hrest').
  rewrite allb_app in Hrest. apply andb_prop in Hrest as [_ Hrest].
  unfold monthDayShape in Hmd. unfold timeOfDayShape in Htm.
  shape_inv Hmd. shape_inv Htm.
  apply nonEmptyRun_inv in H1 as [H1 N1], H2 as [H2 N2], Hsq as [Hsq Nsq],
    H3 as [H3 N3], Hhx as [Hhx Nhx], H4 as [H4 N4].
  rewrite <- (app_assoc ws4 ws5 rest').
  assert (allb Chr.space (ws4 +:+ ws5) = true) as H45 by (rewrite allb_app, H4, H5; reflexivity).
  assert (ws4 +:+ ws5 <> "") as N45 by (destruct ws4; [congruence|discriminate]).
  generalize dependent (ws4 +:+ ws5). intros ws H45 N45.
  unfold exec. unfold_pattern. rewrite !app_cons, !app_nil_l.
  eexists. repeat step.
  apply plus_longest; [assumption..| |].
  { simpl. now apply digit_not_space. }
  repeat step.
  apply plus_longest; [assumption..| |].
  { apply (starts_run Chr.digit); [apply digit_not_space|assumption..]. }
  repeat step.
  apply plus_longest; [assumption..| |].
  { apply (starts_run Chr.space); [apply space_not_digit|assumption..]. }
  repeat step.
  apply plus_longest; [assumption..| |].
  { apply (starts_run Chr.hex); [apply hex_not_space|assumption..]. }
  repeat step.
  apply plus_longest; [assumption..| |].
  { apply (starts_run Chr.space); [apply space_not_hex|assumption..]. }
  repeat step.
  apply plus_longest; [assumption..|].
  repeat step. rewrite run_star.
  rewrite <- (app_nil_r rest') at 1.
  apply greedy_longest; [assumption|reflexivity|].
  repeat step. reflexivity.
Qed.

Ltac inv_run H :=
  repeat (first
    [ rewrite run_cat in H | rewrite run_group in H | rewrite run_eps in H
    | apply bol_inv in H as [-> H]
    | apply eol_inv in H as [-> H]
    | apply lit_inv in H as (? & -> & H)
    | apply cls_inv in H as (? & ? & -> & ? & H)
    | apply plus_inv in H as (? & ? & -> & ? & ? & H)
    | apply star_inv in H as (? & ? & -> & ? & H) ]; cbv beta in H).

Ltac use_classes :=
  repeat match goal with
  | H : ?p ?c = true |- context [?p ?c] => rewrite H
  end.

Lemma Format2_of_exec (b : bool) (s : string) (m : list string) (rest : string) :
  exec historyLinePatternV2 b s = Some (m, rest) -> b = true /\ rest = "" /\ Format2 s.
Proof.
  unfold exec. unfold_pattern. intros H. inv_run H.
  injection H as _ <-. split; [reflexivity|]. split; [reflexivity|].
  match goal with
  | |- Format2 (String ?a1 (String ?a2 (String "-" (String ?a3 (String ?a4
         (?w1 +:+ String ?t1 (String ?t2 (String ":" (String ?t3 (String ?t4 (String ":"
           (String ?t5 (String ?t6 (String "." (String ?t7 (String ?t8 (String ?t9
             (?w2 +:+ ?sq +:+ ?w3 +:+ ?hx +:+ ?w4 +:+ ?r +:+ "")))))))))))))))))) =>
      exists (String a1 (String a2 (String "-" (String a3 (String a4 ""))))), w1,
        (String t1 (String t2 (String ":" (String t3 (String t4 (String ":"
           (String t5 (String t6 (String "." (String t7 (String t8 (String t9 "")))))))))))),
        w2, sq, w3, hx, w4, r
  end.
  rewrite app_nil_r.
  repeat split; try reflexivity; try (now apply nonEmptyRun_intro); try assumption.
  - simpl. use_classes. reflexivity.
  - simpl. use_classes. reflexivity.
Qed.

Lemma search_unfold (r : regex) (b : bool) (s : string) :
  search r b s
  = match exec r b s with
    | Some (m, _) => Some m
    | None => match s with String _ s' => search r false s' | EmptyString => None end
    end.
Proof. destruct s; reflexivity. Qed.

(** The line pattern is anchored: it matches at the beginning of the
    text or nowhere. *)
Lemma search_line_inside (s : string) : search historyLinePatternV2 false s = None.
Proof.
  induction s as [|c s IH]; rewrite search_unfold;
    (destruct (exec historyLinePatternV2 false _) as [[m rest]|] eqn:H;
     [apply Format2_of_exec in H as [[=] _]|assumption || reflexivity]).
Qed.

Lemma search_line (s : string) :
  (Format2 s -> exists m, m <> [] /\ search historyLinePatternV2 true s = Some m) /\
  (~ Format2 s -> search historyLinePatternV2 true s = None).
Proof.
  rewrite search_unfold. split.
  - intros (m & H)%exec_of_Format2. rewrite H. exists m. split; [|reflexivity].
    now apply exec_nonempty in H.
  - intros Hn. destruct (exec historyLinePatternV2 true s) as [[m rest]|] eqn:H.
    + apply Format2_of_exec in H as (_ & _ & H). contradiction.
    + destruct s; [reflexivity|apply search_line_inside].
Qed.

(** The grammar in words and the pattern agree. *)
Lemma Format2_MatchString (s : string) :
  Format2 s <-> MatchString historyLinePatternV2 s = true.
Proof.
  unfold MatchString. split.
  - intros (m & _ & ->)%search_line. reflexivity.
  - destruct (search historyLinePatternV2 true s) eqn:H; [intros _|discriminate].
    rewrite search_unfold in H.
    destruct (exec historyLinePatternV2 true s) as [[m rest]|] eqn:He.
    + now apply Format2_of_exec in He as (_ & _ & He).
    + destruct s; [discriminate|]. now rewrite search_line_inside in H.
Qed.

Lemma Format2_dec (s : string) : {Format2 s} + {~ Format2 s}.
Proof.
  destruct (MatchString historyLinePatternV2 s) eqn:H.
  - left. now apply Format2_MatchString.
  - right. intros Hf%Format2_MatchString. congruence.
Qed.

Lemma freshEntry_present (t : time.Time) : mapsPresent (set_Timestamp t freshEntry).
Proof. unfold mapsPresent. simpl. eauto. Qed.

(** C2. [ParseHistoryV2Line] fails, with an error and no entry,
    exactly when the trimmed line does not match the Format-2 grammar
    (the empty line included); on every line whose trimmed form matches
    it returns an entry and no error, whatever the month-day and time
    are, and the three maps of that entry are present. *)
Theorem ParseHistoryV2Line_fails_iff_malformed (now : time.Time) (line : string) :
  (~ Format2 (strings.TrimSpace line) ->
   ParseHistoryV2Line now line = Some (None, Some errInvalidFormat)) /\
  (Format2 (strings.TrimSpace line) ->
   exists e, ParseHistoryV2Line now line = Some (Some e, None) /\ mapsPresent e).
Proof.
  rewrite ParseHistoryV2Line_passes. unfold lineMatches, FindStringSubmatch. split.
  - intros H%search_line. now rewrite H.
  - intros (m & Hm & ->)%search_line.
    destruct m as [|m0 m]; [congruence|]. cbn [length Nat.eqb].
    destruct (runPasses_present (sub (m0 :: m) 5)
                (set_Timestamp (timestampOf now (m0 :: m)) freshEntry))
      as (e & -> & He); [apply freshEntry_present|].
    exists e. split; [reflexivity|assumption].
Qed.

Lemma ParseHistoryV2Line_fails_iff_malformed_witness :
  (~ Format2 (strings.TrimSpace "") /\
   ParseHistoryV2Line time.zero "" = Some (None, Some errInvalidFormat)) /\
  (Format2 (strings.TrimSpace "  02-30 12:00:00.000 075 c4002820 status=full ") /\
   exists e,
     ParseHistoryV2Line time.zero "  02-30 12:00:00.000 075 c4002820 status=full "
       = Some (Some e, None) /\ mapsPresent e).
Proof.
  assert (~ Format2 (strings.TrimSpace "")) as H1.
  { intros H%Format2_MatchString. vm_compute in H. discriminate H. }
  assert (Format2 (strings.TrimSpace "  02-30 12:00:00.000 075 c4002820 status=full ")) as H2.
  { apply Format2_MatchString. vm_compute. reflexivity. }
  split; (split; [assumption|]).
  - apply (proj1 (ParseHistoryV2Line_fails_iff_malformed time.zero "")). exact H1.
  - apply (proj2 (ParseHistoryV2Line_fails_iff_malformed time.zero
                    "  02-30 12:00:00.000 075 c4002820 status=full ")). exact H2.
Defined.

(** A line whose month-day is no day of the calendar is parsed all the
    same, with the clock reading as its timestamp. *)
Example invalid_date_parsed :
  match ParseHistoryV2Line (time.Date 2026 10 30 1 2 3 0)
          "02-30 12:00:00.000 075 c4002820 status=full" with
  | Some (Some e, None) => Timestamp e = time.Date 2026 10 30 1 2 3 0 /\ Status e = "full"
  | _ => False
  end.
Proof. vm_compute. split; reflexivity. Qed.

(** ** Scanning for all matches *)

Lemma scan_offsets (r : regex) (b : bool) (skip pos pos' : nat) (s : string) :
  map snd (scan r b skip pos s) = map snd (scan r b skip pos' s).
Proof.
  revert b skip pos pos'. induction s as [|c s IH]; intros b skip pos pos'; simpl; [reflexivity|].
  destruct skip as [|n]; [|apply IH].
  destruct (exec r b (String c s)) as [[m rest]|]; simpl; [f_equal|]; apply IH.
Qed.

Lemma FindAllStringSubmatch_matchesFrom (r : regex) (s : string) :
  FindAllStringSubmatch r s = matchesFrom r true 0 s.
Proof. reflexivity. Qed.

Lemma after_false (w : string) : after false w = false.
Proof. now destruct w. Qed.

Lemma after_app (b : bool) (w1 w2 : string) : after b (w1 +:+ w2) = after (after b w1) w2.
Proof. destruct w1; [reflexivity|]. rewrite app_cons. simpl. now rewrite after_false. Qed.

(** The bytes of a match are passed over. *)
Lemma matchesFrom_skip (r : regex) (b : bool) (w s : string) :
  matchesFrom r b (String.length w) (w +:+ s) = matchesFrom r (after b w) 0 s.
Proof.
  unfold matchesFrom. revert b. induction w as [|c w IH]; intros b; [reflexivity|].
  rewrite app_cons. simpl. rewrite (scan_offsets r false _ 1 0), IH. now rewrite after_false.
Qed.

(** Where no match begins, the scan moves on. *)
Lemma matchesFrom_none (r : regex) (b : bool) (pre s : string) :
  (forall p1 p2, pre = p1 +:+ p2 -> p2 <> "" -> exec r (after b p1) (p2 +:+ s) = None) ->
  matchesFrom r b 0 (pre +:+ s) = matchesFrom r (after b pre) 0 s.
Proof.
  unfold matchesFrom. revert b. induction pre as [|c pre IH]; intros b H; [reflexivity|].
  pose proof (H "" (String c pre) eq_refl ltac:(discriminate)) as He.
  rewrite app_cons in *. cbn [after] in He. cbn [scan]. rewrite He.
  rewrite (scan_offsets r false _ 1 0), IH; [now rewrite after_false|].
  intros p1 p2 -> Hp2. rewrite after_false.
  apply (H (String c p1) p2); [reflexivity|assumption].
Qed.

(** A match is reported, and the scan resumes after it. *)
Lemma matchesFrom_hit (r : regex) (b : bool) (tok post : string) (m : list string) :
  exec r b (tok +:+ post) = Some (m, post) -> tok <> "" ->
  matchesFrom r b 0 (tok +:+ post) = m :: matchesFrom r false 0 post.
Proof.
  intros H Hne. destruct tok as [|c tok]; [congruence|].
  pose proof (matchesFrom_skip r false tok post) as E. rewrite after_false in E.
  unfold matchesFrom in *. rewrite app_cons in *. simpl. rewrite H. simpl. f_equal.
  rewrite length_app.
  replace (S (String.length tok + String.length post) - String.length post - 1)%nat
    with (String.length tok) by lia.
  now rewrite (scan_offsets r false _ 1 0).
Qed.

(** The scan of a string either finds nothing, no match beginning at
    any of its positions, or finds its leftmost match. *)
Lemma matchesFrom_first (r : regex) (b : bool) (s : string) :
  (matchesFrom r b 0 s = [] /\
   forall pre suf, s = pre +:+ suf -> suf <> "" -> exec r (after b pre) suf = None) \/
  (exists pre c suf m rest,
     s = pre +:+ String c suf /\
     (forall p1 p2, pre = p1 +:+ p2 -> p2 <> "" ->
        exec r (after b p1) (p2 +:+ String c suf) = None) /\
     exec r (after b pre) (String c suf) = Some (m, rest) /\
     matchesFrom r b 0 s
     = m :: matchesFrom r false (String.length (String c suf) - String.length rest - 1) suf).
Proof.
  revert b. induction s as [|c s IH]; intros b.
  - left. split; [reflexivity|]. intros pre suf H Hne.
    destruct pre; [|discriminate]. rewrite app_nil_l in H. congruence.
  - destruct (exec r b (String c s)) as [[m rest]|] eqn:He.
    + right. exists "", c, s, m, rest. split; [reflexivity|]. split; [|split].
      * intros p1 p2 H Hne. destruct p1; [|discriminate]. rewrite app_nil_l in H. congruence.
      * exact He.
      * unfold matchesFrom. cbn [scan]. rewrite He. cbn [map snd]. f_equal.
        apply scan_offsets.
    + assert (matchesFrom r b 0 (String c s) = matchesFrom r false 0 s) as E.
      { unfold matchesFrom. cbn [scan]. rewrite He. apply scan_offsets. }
      rewrite E. destruct (IH false) as [[Hnil Hall]|(pre & c' & suf & m & rest & -> & Hpre & Hm & Hs)].
      * left. split; [assumption|]. intros pre suf H Hne.
        destruct pre as [|c' pre].
        -- rewrite app_nil_l in H. subst suf. exact He.
        -- rewrite app_cons in H. injection H as <- ->. simpl.
           rewrite <- (after_false pre). now apply Hall.
      * right. exists (String c pre), c', suf, m, rest. rewrite app_cons.
        split; [reflexivity|]. split; [|split].
        -- intros p1 p2 H Hne. destruct p1 as [|c1 p1].
           ++ rewrite app_nil_l in H. subst p2. rewrite app_cons. exact He.
           ++ rewrite app_cons in H. injection H as <- ->. simpl.
              rewrite <- (after_false p1). now apply Hpre.
        -- simpl. now rewrite after_false in Hm.
        -- exact Hs.
Qed.

(** ** The wake-reason pattern *)

Lemma taken_eq (s w s' : string) : s = w +:+ s' -> taken s s' = w.
Proof. intros ->. apply taken_app. Qed.

Lemma wakeToken_app (d t post : string) :
  wakeToken d t +:+ post
  = "wake_reason=" +:+ d +:+ String ":" (String Chr.dquote (t +:+ String Chr.dquote post)).
Proof. unfold wakeToken, quote. now rewrite !app_assoc. Qed.

Lemma wakeToken_nonempty (d t : string) : wakeToken d t <> "".
Proof. discriminate. Qed.

(** At a wake-reason token the pattern matches that token, and
    captures its quoted text. *)
Lemma exec_wakeToken (b : bool) (d t post : string) :
  isWakeToken d t ->
  exec wakeReasonPattern b (wakeToken d t +:+ post) = Some ([wakeToken d t; t], post).
Proof.
  intros [[Hd Nd]%nonEmptyRun_inv [Ht Nt]%nonEmptyRun_inv].
  unfold exec. rewrite run_group.
  rewrite wakeToken_app at 1. unfold_pattern. rewrite !app_cons, !app_nil_l.
  repeat step.
  apply plus_longest; [assumption..|reflexivity|].
  repeat step.
  apply plus_longest; [assumption..|reflexivity|].
  repeat step. rewrite taken_app, taken_app. reflexivity.
Qed.

(** Where the pattern matches there is a wake-reason token, the match
    is that token and the capture its quoted text. *)
Lemma wakeToken_of_exec (b : bool) (s : string) (m : list string) (post : string) :
  exec wakeReasonPattern b s = Some (m, post) ->
  exists d t, isWakeToken d t /\ s = wakeToken d t +:+ post /\ m = [wakeToken d t; t].
Proof.
  unfold exec. unfold_pattern. intros H. inv_run H.
  match type of H with
  | Some (submatches [taken ?whole ?p; taken (?t +:+ String Chr.dquote ?p) _], _) = _ =>
      match whole with
      | context [?d +:+ String ":" (String Chr.dquote (t +:+ String Chr.dquote p))] =>
          exists d, t;
          rewrite taken_app, (taken_eq whole (wakeToken d t) p) in H
            by (now rewrite wakeToken_app);
          injection H as <- <-
      end
  end.
  split; [split; now apply nonEmptyRun_intro|].
  split; [now rewrite wakeToken_app|reflexivity].
Qed.

Lemma wakeTokenAt_exec (b : bool) (s : string) :
  wakeTokenAt s <-> exists m post, exec wakeReasonPattern b s = Some (m, post).
Proof.
  split.
  - intros (d & t & post & H & ->). rewrite (exec_wakeToken b d t post H). eauto.
  - intros (m & post & (d & t & H & -> & _)%wakeToken_of_exec). now exists d, t, post.
Qed.

Lemma not_wakeTokenAt_exec (b : bool) (s : string) :
  ~ wakeTokenAt s -> exec wakeReasonPattern b s = None.
Proof.
  intros H. destruct (exec wakeReasonPattern b s) as [[m post]|] eqn:He; [|reflexivity].
  exfalso. apply H. apply (wakeTokenAt_exec b). eauto.
Qed.

(** The scan for wake reasons collects the texts of the tokens, in
    order. *)
Lemma WakeTokens_scan (s : string) (ts : list string) :
  WakeTokens s ts ->
  forall b, map (fun m => sub m 1) (matchesFrom wakeReasonPattern b 0 s) = ts.
Proof.
  induction 1 as [s Hnone|pre d t post ts Htok Hleft Hrest IH]; intros b.
  - rewrite <- (app_nil_r s). rewrite matchesFrom_none; [reflexivity|].
    intros p1 p2 -> Hp2. rewrite app_nil_r. apply not_wakeTokenAt_exec. now apply (Hnone p1).
  - rewrite matchesFrom_none.
    + rewrite (matchesFrom_hit _ _ _ _ _ (exec_wakeToken _ d t post Htok))
        by apply wakeToken_nonempty.
      simpl. f_equal. apply IH.
    + intros p1 p2 Hp Hp2. apply not_wakeTokenAt_exec. now apply (Hleft p1).
Qed.

(** Every string has its wake-reason tokens, and the scan finds them. *)
Lemma WakeTokens_matchesFrom (n : nat) (s : string) (b : bool) :
  (String.length s <= n)%nat ->
  WakeTokens s (map (fun m => sub m 1) (matchesFrom wakeReasonPattern b 0 s)).
Proof.
  revert s b. induction n as [|n IH]; intros s b Hn.
  - destruct s; [|simpl in Hn; lia]. apply WakeTokens_none.
    intros pre rest H (d & t & post & _ & ->).
    destruct pre; discriminate H.
  - destruct (matchesFrom_first wakeReasonPattern b s)
      as [[-> Hall]|(pre & c & suf & m & rest & -> & Hpre & Hm & ->)].
    + apply WakeTokens_none. intros pre rest -> Hat.
      destruct rest as [|c rest].
      * destruct Hat as (d & t & post & _ & H). discriminate H.
      * apply (wakeTokenAt_exec (after b pre)) in Hat as (m & post & Hat).
        rewrite Hall in Hat; [discriminate|reflexivity|discriminate].
    + apply wakeToken_of_exec in Hm as (d & t & Htok & Hs & ->).
      assert (exists tok', wakeToken d t = String c tok' /\ suf = tok' +:+ rest)
        as (tok' & Etok & ->).
      { rewrite wakeToken_app in Hs. unfold wakeToken. rewrite app_cons in *.
        injection Hs as <- ->. eexists. split; [reflexivity|].
        unfold quote. now rewrite !app_assoc, !app_cons, !app_nil_l. }
      rewrite <- app_cons, <- Etok in *.
      rewrite length_app.
      replace (String.length (wakeToken d t) + String.length rest - String.length rest - 1)%nat
        with (String.length tok') by (rewrite Etok; simpl; lia).
      rewrite matchesFrom_skip, after_false. cbn [map sub nth].
      apply WakeTokens_next; [assumption| |].
      * intros p1 p2 Hp Hp2 Hat. apply (wakeTokenAt_exec (after b p1)) in Hat as (m & post & Hat).
        now rewrite (Hpre p1 p2 Hp Hp2) in Hat.
      * apply IH. rewrite !length_app in Hn. rewrite Etok in Hn. simpl in Hn. lia.
Qed.

Lemma WakeTokens_wakeTexts (line : string) : WakeTokens line (wakeTexts line).
Proof. apply (WakeTokens_matchesFrom (String.length line)). lia. Qed.

Lemma wakeTexts_unique (line : string) (ts : list string) :
  WakeTokens line ts -> wakeTexts line = ts.
Proof. intros H. apply (WakeTokens_scan line ts H true). Qed.

(** ** The wake-reason pass *)

Lemma wakeReasonWrites_texts (line : string) :
  wakeReasonWrites line = map PutWakeReason (wakeTexts line).
Proof.
  unfold wakeReasonWrites, wakeTexts.
  induction (FindAllStringSubmatch wakeReasonPattern line) as [|m ms IH]; [reflexivity|].
  cbn [omap list_omap wakeReasonWrite map]. now f_equal.
Qed.

Lemma commit_wakeReasons (ts : list string) (e : BatteryHistoryV2Entry)
    (g : gmap string bool) :
  WakeReasons e = Some g ->
  forEach commit (map PutWakeReason ts) e
  = Some (set_WakeReasons (Some (writeAll (map (fun t => (t, true)) ts) g)) e).
Proof.
  revert e g. induction ts as [|t ts IH]; intros e g He; simpl.
  - destruct e; simpl in *. now subst.
  - rewrite He. simpl. rewrite (IH _ (<[t:=true]> g)) by reflexivity. now destruct e.
Qed.

Lemma writeAll_true (ts : list string) (g : gmap string bool) (k : string) :
  writeAll (map (fun t => (t, true)) ts) g !! k
  = if decide (k ∈ ts) then Some true else g !! k.
Proof.
  revert g. induction ts as [|t ts IH]; intros g.
  - destruct (decide (k ∈ [])) as [H|_]; [|reflexivity]. now apply not_elem_of_nil in H.
  - change (writeAll (map (fun t0 => (t0, true)) (t :: ts)) g)
      with (writeAll (map (fun t0 => (t0, true)) ts) (<[t:=true]> g)).
    rewrite IH. destruct (decide (k ∈ ts)) as [Hin|Hin], (decide (k ∈ t :: ts)) as [Hin'|Hin'].
    + reflexivity.
    + exfalso. apply Hin'. apply elem_of_cons. now right.
    + apply elem_of_cons in Hin' as [->|?]; [apply lookup_insert_eq|contradiction].
    + apply lookup_insert_ne. intros ->. apply Hin'. apply elem_of_cons. now left.
Qed.

(** C7. Each wake-reason token of a remainder (wake_reason=, digits, a
    colon and a quoted text; the tokens taken from left to right)
    contributes exactly its quoted text, without the quotes, as a member
    of WakeReasons: after the pass the members are those there were and
    the texts of the tokens, each text mapped to true, whether it occurs
    once or several times, and nothing else is changed. *)
Theorem wake_reasons_collected (e : BatteryHistoryV2Entry) (g : gmap string bool)
    (line : string) (ts : list string) :
  WakeReasons e = Some g ->
  WakeTokens line ts ->
  exists g',
    parseWakeReasonsV2 e line = Some (set_WakeReasons (Some g') e) /\
    dom g' = dom g ∪ list_to_set ts /\
    (forall t, t ∈ ts -> g' !! t = Some true) /\
    (forall k, k ∉ ts -> g' !! k = g !! k).
Proof.
  intros He Hts. exists (writeAll (map (fun t => (t, true)) ts) g).
  split; [|split; [|split]].
  - rewrite parseWakeReasonsV2_writes, wakeReasonWrites_texts, (wakeTexts_unique line ts Hts).
    now apply commit_wakeReasons.
  - apply set_eq. intros k. rewrite elem_of_union, !elem_of_dom, elem_of_list_to_set.
    rewrite writeAll_true. destruct (decide (k ∈ ts)); [|tauto].
    split; [auto|]. intros _. eauto.
  - intros t Ht. rewrite writeAll_true. now rewrite decide_True.
  - intros k Hk. rewrite writeAll_true. now rewrite decide_False.
Qed.

Lemma wake_reasons_collected_witness :
  WakeTokens
    ("+running wake_reason=0:" +:+ quote +:+ "100 wlan_wake" +:+ quote
     +:+ " wake_reason=12:" +:+ quote +:+ "100 wlan_wake" +:+ quote)
    ["100 wlan_wake"; "100 wlan_wake"] /\
  exists g',
    parseWakeReasonsV2 freshEntry
      ("+running wake_reason=0:" +:+ quote +:+ "100 wlan_wake" +:+ quote
       +:+ " wake_reason=12:" +:+ quote +:+ "100 wlan_wake" +:+ quote)
    = Some (set_WakeReasons (Some g') freshEntry) /\
    dom g' = dom (∅ : gmap string bool) ∪ list_to_set ["100 wlan_wake"; "100 wlan_wake"] /\
    (forall t, t ∈ ["100 wlan_wake"; "100 wlan_wake"] -> g' !! t = Some true) /\
    (forall k, k ∉ ["100 wlan_wake"; "100 wlan_wake"] -> g' !! k = (∅ : gmap string bool) !! k).
Proof.
  assert (WakeTokens
    ("+running wake_reason=0:" +:+ quote +:+ "100 wlan_wake" +:+ quote
     +:+ " wake_reason=12:" +:+ quote +:+ "100 wlan_wake" +:+ quote)
    ["100 wlan_wake"; "100 wlan_wake"]) as H.
  { exact (WakeTokens_wakeTexts
      ("+running wake_reason=0:" +:+ quote +:+ "100 wlan_wake" +:+ quote
       +:+ " wake_reason=12:" +:+ quote +:+ "100 wlan_wake" +:+ quote)). }
  split; [exact H|].
  apply (wake_reasons_collected freshEntry ∅ _ _ eq_refl H).
Defined.

(** Two tokens with the same text leave one member. *)
Example wake_reasons_twice :
  WakeReasons <$> parseWakeReasonsV2 freshEntry
    ("wake_reason=0:" +:+ quote +:+ "100 rtc_alarm" +:+ quote
     +:+ " wake_reason=1:" +:+ quote +:+ "100 rtc_alarm" +:+ quote)
  = Some (Some (<["100 rtc_alarm" := true]> ∅)).
Proof. vm_compute. reflexivity. Qed.

(** ** Matches are never empty *)

(** A match of any of the three patterns the passes scan with consumes
    at least one byte, so the scan never meets an empty match. *)
Lemma scanned_patterns_consume (r : regex) (b : bool) (s : string) (m : list string)
    (rest : string) :
  In r [keyValuePattern; stateTransitionPattern; wakeReasonPattern] ->
  exec r b s = Some (m, rest) -> (String.length rest < String.length s)%nat.
Proof.
  intros [<-|[<-|[<-|[]]]]; unfold exec; unfold_pattern; intros H; inv_run H;
    injection H as _ <-; repeat (rewrite ?app_cons, ?length_app; cbn [String.length]); lia.
Qed.

(** ** Where the toggle pass tests the boundaries *)

Lemma get_None (s : string) (n : nat) :
  (String.length s <= n)%nat -> String.get n s = None.
Proof.
  revert n. induction s as [|c s IH]; intros n H; simpl in *; [reflexivity|].
  destruct n; [lia|]. apply IH. lia.
Qed.

(** The pass applies the boundary rule at the first occurrence of the
    matched text in the remainder, wherever the match itself is. *)
Lemma toggleAccepted_first_occurrence (line : string) (m : list string) :
  (0 <= strings.Index line (sub m 0))%Z ->
  toggleAccepted line m
  = boundedToggle line (Z.to_nat (strings.Index line (sub m 0))) m.
Proof.
  intros Hi. unfold toggleAccepted, boundedToggle.
  pose proof (Index_bound line (sub m 0) Hi) as Hb.
  destruct (negb (strings.Contains (sub m 0) "=")); [|reflexivity].
  rewrite (proj2 (Z.leb_le _ _) Hi). cbn [andb].
  set (idx := strings.Index line (sub m 0)) in *.
  assert (prevOk line idx
          = Some match Z.to_nat idx with
                 | O => true
                 | S before =>
                     match String.get before line with
                     | Some c => Chr.same " " c || Chr.same "+" c || Chr.same "-" c
                     | None => false
                     end
                 end) as ->.
  { unfold prevOk, byteAt. destruct (0 <? idx)%Z eqn:Hp.
    - apply Z.ltb_lt in Hp. replace (Z.to_nat idx) with (S (Z.to_nat (idx - 1))) by lia.
      destruct (idx - 1 <? 0)%Z eqn:Hn; [apply Z.ltb_lt in Hn; lia|].
      destruct (get_Some line (Z.to_nat (idx - 1))) as [c ->]; [unfold len in Hb; lia|].
      reflexivity.
    - apply Z.ltb_ge in Hp. now replace idx with 0%Z by lia. }
  assert (nextOk line idx (len (sub m 0))
          = Some match String.get (Z.to_nat idx + String.length (sub m 0)) line with
                 | Some c => Chr.same " " c || Chr.same "+" c || Chr.same "-" c
                             || Chr.same "," c
                 | None => true
                 end) as ->.
  { unfold nextOk, byteAt, len in *.
    replace (Z.to_nat idx + String.length (sub m 0))%nat
      with (Z.to_nat (idx + Z.of_nat (String.length (sub m 0)))) by lia.
    destruct (idx + Z.of_nat (String.length (sub m 0)) <? Z.of_nat (String.length line))%Z
      eqn:Hlt.
    - apply Z.ltb_lt in Hlt.
      destruct (idx + Z.of_nat (String.length (sub m 0)) <? 0)%Z eqn:Hn;
        [apply Z.ltb_lt in Hn; lia|].
      destruct (get_Some line (Z.to_nat (idx + Z.of_nat (String.length (sub m 0)))))
        as [c ->]; [lia|]. reflexivity.
    - apply Z.ltb_ge in Hlt. rewrite get_None by lia. reflexivity. }
  reflexivity.
Qed.

(** * Further properties of the package *)

(** ** What the patterns capture *)

(** A match reported by the scan is a match of the pattern at some
    position of the string. *)
Lemma scan_exec (r : regex) (b : bool) (skip pos : nat) (s : string) (m : list string) :
  In m (map snd (scan r b skip pos s)) ->
  exists b' suf rest, exec r b' suf = Some (m, rest).
Proof.
  revert b skip pos. induction s as [|c s IH]; intros b skip pos; simpl; [tauto|].
  destruct skip as [|n]; [|apply IH].
  destruct (exec r b (String c s)) as [[m' rest]|] eqn:He; simpl.
  - intros [<-|H]; [eauto|]. now apply IH in H.
  - apply IH.
Qed.

Lemma FindAllStringSubmatch_exec (r : regex) (s : string) (m : list string) :
  In m (FindAllStringSubmatch r s) -> exists b' suf rest, exec r b' suf = Some (m, rest).
Proof. apply scan_exec. Qed.

(** A key=value match: a word, an equals sign and a non-empty run
    without comma or white space. *)
Lemma keyValue_of_exec (b : bool) (s : string) (m : list string) (rest : string) :
  exec keyValuePattern b s = Some (m, rest) ->
  exists k v,
    nonEmptyRun Chr.word k = true /\ nonEmptyRun Chr.value v = true /\
    s = k +:+ "=" +:+ v +:+ rest /\ m = [k +:+ "=" +:+ v; k; v].
Proof.
  unfold exec. unfold_pattern. intros H. inv_run H.
  match type of H with
  | Some (submatches [taken ?whole ?p; taken (?v +:+ ?p) _; taken (?k +:+ ?q) _], _) = _ =>
      exists k, v;
      rewrite (taken_app v p), (taken_app k q), (taken_eq whole (k +:+ "=" +:+ v) p) in H
        by (now rewrite !app_assoc);
      injection H as <- <-
  end.
  repeat split; try (now apply nonEmptyRun_intro).
Qed.

(** A toggle match: a sign and a word. *)
Lemma stateTransition_of_exec (b : bool) (s : string) (m : list string) (rest : string) :
  exec stateTransitionPattern b s = Some (m, rest) ->
  exists sg w,
    Chr.sign sg = true /\ nonEmptyRun Chr.word w = true /\
    s = String sg w +:+ rest /\ m = [String sg w; String sg ""; w].
Proof.
  unfold exec. unfold_pattern. intros H. inv_run H.
  match type of H with
  | Some (submatches [taken ?whole ?p; taken (?w +:+ ?p) _; taken (String ?sg ?q) _], _) = _ =>
      exists sg, w;
      rewrite (taken_app w p), (taken_eq (String sg q) (String sg "") q),
        (taken_eq whole (String sg w) p) in H by reflexivity;
      injection H as <- <-
  end.
  repeat split; try assumption. now apply nonEmptyRun_intro.
Qed.

(** ** Numbers *)

Lemma digitVal_range (c : ascii) : Chr.digit c = true -> (0 <= strconv.digitVal c <= 9)%Z.
Proof. destruct c as [[] [] [] [] [] [] [] []]; vm_compute; intuition congruence. Qed.

Lemma readDigits_nonneg (s : string) (acc v : Z) :
  strconv.readDigits acc s = Some v -> (0 <= acc)%Z -> (0 <= v)%Z.
Proof.
  revert acc. induction s as [|c s IH]; intros acc H Hacc; simpl in H.
  - now injection H as <-.
  - destruct (Chr.digit c) eqn:Hc; [|discriminate].
    apply IH in H; [assumption|]. pose proof (digitVal_range c Hc). lia.
Qed.

(** A parsed integer is within the range of its size. *)
Lemma ParseInt_range (s : string) (bits v : Z) :
  (1 <= bits)%Z ->
  strconv.ParseInt s bits = Some v -> (- 2 ^ (bits - 1) <= v < 2 ^ (bits - 1))%Z.
Proof.
  intros Hbits. assert (0 < 2 ^ (bits - 1))%Z as Hpow by (apply Z.pow_pos_nonneg; lia).
  unfold strconv.ParseInt. destruct s as [|c s]; [discriminate|].
  set (body := if Chr.same "+" c || Chr.same "-" c then s else String c s).
  destruct (strconv.ParseUint body) as [un|] eqn:Hu; [|discriminate].
  assert (0 <= un)%Z as Hun.
  { unfold strconv.ParseUint in Hu. destruct body; [discriminate|].
    now apply readDigits_nonneg in Hu. }
  destruct (Chr.same "-" c); cbn [negb andb].
  - destruct (2 ^ (bits - 1) <? un)%Z eqn:Hc; [discriminate|].
    apply Z.ltb_ge in Hc. intros [= <-]. lia.
  - destruct (2 ^ (bits - 1) <=? un)%Z eqn:Hc; [discriminate|].
    apply Z.leb_gt in Hc. intros [= <-]. lia.
Qed.

Lemma int32_id (v : Z) : int32Range v -> int32 v = v.
Proof. unfold int32Range, int32. intros H. rewrite Z.mod_small; lia. Qed.

(** ** The writes of the passes are producible *)

Lemma keyValueWrite_producible (m : list string) (w : write) :
  nonEmptyRun Chr.value (sub m 2) = true ->
  keyValueWrite m = Some w -> producible w.
Proof.
  intros Hv. unfold keyValueWrite.
  repeat match goal with
  | |- context [if ?c then _ else _] =>
      let Hc := fresh "Hc" in
      destruct c eqn:Hc;
      [try (destruct (strconv.ParseInt _ _) as [v|] eqn:Hp; [apply ParseInt_range in Hp; [|lia]|]);
       simpl; intros [= <-]; simpl;
       try rewrite int32_id by exact Hp; try exact Hp; try exact Hv|]
  end; try discriminate.
  split; [|exact Hp].
  apply orb_prop in Hc10 as [H|H]; apply String.eqb_eq in H; [now left|now right].
Qed.

Lemma keyValueWrites_producible (line : string) : Forall producible (keyValueWrites line).
Proof.
  unfold keyValueWrites.
  assert (forall m, In m (FindAllStringSubmatch keyValuePattern line) ->
            nonEmptyRun Chr.value (sub m 2) = true) as H.
  { intros m (b & suf & rest & (k & v & _ & Hv & _ & ->)%keyValue_of_exec)%FindAllStringSubmatch_exec.
    exact Hv. }
  induction (FindAllStringSubmatch keyValuePattern line) as [|m ms IH]; [constructor|].
  cbn [omap list_omap]. destruct (keyValueWrite m) as [w|] eqn:Hw.
  - constructor; [|apply IH; intros; apply H; now right].
    apply (keyValueWrite_producible m); [apply H; now left|assumption].
  - apply IH. intros; apply H; now right.
Qed.

Lemma stateTransitionWrites_producible (line : string) :
  Forall producible (stateTransitionWrites line).
Proof.
  unfold stateTransitionWrites.
  assert (forall m, In m (FindAllStringSubmatch stateTransitionPattern line) ->
            nonEmptyRun Chr.word (sub m 2) = true) as H.
  { intros m (b & suf & rest
              & (sg & w & _ & Hw & _ & ->)%stateTransition_of_exec)%FindAllStringSubmatch_exec.
    exact Hw. }
  induction (FindAllStringSubmatch stateTransitionPattern line) as [|m ms IH]; [constructor|].
  cbn [omap list_omap]. unfold stateTransitionWrite at 1.
  destruct (toggleAccepted line m).
  - constructor; [apply H; now left|apply IH; intros; apply H; now right].
  - apply IH. intros; apply H; now right.
Qed.

Lemma wakeReasonWrites_producible (line : string) :
  Forall producible (wakeReasonWrites line).
Proof.
  unfold wakeReasonWrites.
  assert (forall m, In m (FindAllStringSubmatch wakeReasonPattern line) ->
            nonEmptyRun Chr.unquoted (sub m 1) = true) as H.
  { intros m (b & suf & rest & (d & t & [_ Ht] & _ & ->)%wakeToken_of_exec)%FindAllStringSubmatch_exec.
    exact Ht. }
  induction (FindAllStringSubmatch wakeReasonPattern line) as [|m ms IH]; [constructor|].
  cbn [omap list_omap wakeReasonWrite].
  constructor; [apply H; now left|apply IH; intros; apply H; now right].
Qed.

(** An invariant of the entry kept by every producible write is kept by
    the three passes. *)
Lemma forEach_commit_keeps (I : BatteryHistoryV2Entry -> Prop) (ws : list write)
    (e e' : BatteryHistoryV2Entry) :
  (forall st w st', producible w -> commit st w = Some st' -> I st -> I st') ->
  Forall producible ws -> forEach commit ws e = Some e' -> I e -> I e'.
Proof.
  intros Hstep Hws. revert e. induction Hws as [|w ws Hw Hws IH]; intros e H He; simpl in H.
  - now injection H as <-.
  - destruct (commit e w) as [e1|] eqn:Hc; simpl in H; [|discriminate]. eauto.
Qed.

Lemma runPasses_keeps (I : BatteryHistoryV2Entry -> Prop) (r : string)
    (e e' : BatteryHistoryV2Entry) :
  (forall st w st', producible w -> commit st w = Some st' -> I st -> I st') ->
  runPasses extractionPasses r e = Some e' -> I e -> I e'.
Proof.
  intros Hstep. unfold runPasses, extractionPasses. simpl.
  rewrite parseStateTransitionsV2_writes.
  destruct (forEach commit (stateTransitionWrites r) e) as [e1|] eqn:H1; simpl; [|discriminate].
  rewrite parseKeyValuePairsV2_writes.
  destruct (forEach commit (keyValueWrites r) e1) as [e2|] eqn:H2; simpl; [|discriminate].
  rewrite parseWakeReasonsV2_writes.
  destruct (forEach commit (wakeReasonWrites r) e2) as [e3|] eqn:H3; simpl; [|discriminate].
  intros [= <-] He.
  eapply forEach_commit_keeps; [exact Hstep|apply wakeReasonWrites_producible|exact H3|].
  eapply forEach_commit_keeps; [exact Hstep|apply keyValueWrites_producible|exact H2|].
  eapply forEach_commit_keeps; [exact Hstep|apply stateTransitionWrites_producible|exact H1|].
  exact He.
Qed.

Lemma parsed_keeps (I : BatteryHistoryV2Entry -> Prop) (now : time.Time) (line : string)
    (e : BatteryHistoryV2Entry) (err : option string) :
  (forall st w st', producible w -> commit st w = Some st' -> I st -> I st') ->
  (forall t, I (set_Timestamp t freshEntry)) ->
  ParseHistoryV2Line now line = Some (Some e, err) -> I e.
Proof.
  intros Hstep Hfresh. rewrite ParseHistoryV2Line_passes.
  destruct (length (lineMatches line) =? 0)%nat; [discriminate|].
  destruct (runPasses _ _ _) as [e1|] eqn:H; simpl; [|discriminate].
  intros [= <- _]. eapply runPasses_keeps; [exact Hstep|exact H|apply Hfresh].
Qed.

(** ** Invariants of the entry *)

Lemma pass_keeps (I : BatteryHistoryV2Entry -> Prop)
    (pass : BatteryHistoryV2Entry -> string -> option BatteryHistoryV2Entry)
    (r : string) (e e' : BatteryHistoryV2Entry) :
  (forall st w st', producible w -> commit st w = Some st' -> I st -> I st') ->
  In pass extractionPasses -> pass e r = Some e' -> I e -> I e'.
Proof.
  intros Hstep. unfold extractionPasses. simpl. intros [<-|[<-|[<-|[]]]].
  - rewrite parseStateTransitionsV2_writes. intros H.
    eapply forEach_commit_keeps; eauto using stateTransitionWrites_producible.
  - rewrite parseKeyValuePairsV2_writes. intros H.
    eapply forEach_commit_keeps; eauto using keyValueWrites_producible.
  - rewrite parseWakeReasonsV2_writes. intros H.
    eapply forEach_commit_keeps; eauto using wakeReasonWrites_producible.
Qed.


Lemma commit_stringsClean (st : BatteryHistoryV2Entry) (w : write)
    (st' : BatteryHistoryV2Entry) :
  producible w -> commit st w = Some st' -> stringsClean st -> stringsClean st'.
Proof.
  unfold stringsClean, cleanField. intros Hw Hc H.
  entry_cases st; destruct w; simpl in *; try discriminate; injection Hc as <-; simpl;
    try apply nonEmptyRun_inv in Hw as [Hw _]; tauto.
Qed.

Lemma commit_mapsWellKeyed (st : BatteryHistoryV2Entry) (w : write)
    (st' : BatteryHistoryV2Entry) :
  producible w -> commit st w = Some st' -> mapsWellKeyed st -> mapsWellKeyed st'.
Proof.
  unfold mapsWellKeyed. intros Hw Hc (Hs & Hk & Hr).
  entry_cases st; destruct w; simpl in *; try discriminate; injection Hc as <-; simpl;
    refine (conj _ (conj _ _)); intros g' k' v' Hg Hl; try discriminate;
    first
      [ solve [eauto]
      | injection Hg as <-; destruct (decide (k = k')) as [->|Hne];
        [ rewrite lookup_insert_eq in Hl; injection Hl as <-; solve [eauto | tauto]
        | rewrite lookup_insert_ne in Hl by assumption; solve [eauto] ] ].
Qed.


Lemma fresh_stringsClean (t : time.Time) : stringsClean (set_Timestamp t freshEntry).
Proof. unfold stringsClean, cleanField. simpl. tauto. Qed.

Lemma fresh_mapsWellKeyed (t : time.Time) : mapsWellKeyed (set_Timestamp t freshEntry).
Proof.
  unfold mapsWellKeyed. simpl.
  refine (conj _ (conj _ _)); intros g k v [= <-] H; now rewrite lookup_empty in H.
Qed.



(** The string fields stay free of commas and white space: each pass
    keeps Status, Health, PlugType, DataConn, PhoneSignalStrength,
    WiFiSupplicantState and DeviceIdleMode empty or a run of bytes other
    than the comma and white space, and the entry of a parsed line has
    them so. *)
Theorem strings_stay_clean :
  (forall pass r e e', In pass extractionPasses -> pass e r = Some e' ->
     stringsClean e -> stringsClean e') /\
  (forall now line e err, ParseHistoryV2Line now line = Some (Some e, err) ->
     stringsClean e).
Proof.
  split.
  - intros pass r e e'. apply pass_keeps. apply commit_stringsClean.
  - intros now line e err. apply parsed_keeps;
      [apply commit_stringsClean|apply fresh_stringsClean].
Qed.

Lemma strings_stay_clean_witness :
  exists e,
    ParseHistoryV2Line time.zero
      "01-11 12:11:14.405 075 c4002820 status=discharging,health=good plug=none"
      = Some (Some e, None) /\
    stringsClean e /\ Status e = "discharging" /\ Health e = "good".
Proof.
  eexists. split; [vm_compute; reflexivity|]. split; [|split; reflexivity].
  apply (proj2 strings_stay_clean time.zero
           "01-11 12:11:14.405 075 c4002820 status=discharging,health=good plug=none" _ None).
  vm_compute. reflexivity.
Defined.

(** The maps stay well keyed: each pass keeps every key of States a
    word, every member of WakeReasons a non-empty text without a double
    quote that is mapped to true, and every key of RailCharges one of
    the two rail names; the entry of a parsed line has them so. *)
Theorem maps_stay_well_keyed :
  (forall pass r e e', In pass extractionPasses -> pass e r = Some e' ->
     mapsWellKeyed e -> mapsWellKeyed e') /\
  (forall now line e err, ParseHistoryV2Line now line = Some (Some e, err) ->
     mapsWellKeyed e).
Proof.
  split.
  - intros pass r e e'. apply pass_keeps. apply commit_mapsWellKeyed.
  - intros now line e err. apply parsed_keeps;
      [apply commit_mapsWellKeyed|apply fresh_mapsWellKeyed].
Qed.

Lemma maps_stay_well_keyed_witness :
  exists e,
    ParseHistoryV2Line time.zero
      "01-11 12:11:14.405 075 c4002820 +running modemRailChargemAh=7 -wifi"
      = Some (Some e, None) /\
    mapsWellKeyed e.
Proof.
  eexists. split; [vm_compute; reflexivity|].
  apply (proj2 maps_stay_well_keyed time.zero
           "01-11 12:11:14.405 075 c4002820 +running modemRailChargemAh=7 -wifi" _ None).
  vm_compute. reflexivity.
Defined.

(** ** The last write to a place wins *)

Lemma commit_holds (e : BatteryHistoryV2Entry) (w : write) (e' : BatteryHistoryV2Entry) :
  commit e w = Some e' -> holds w e'.
Proof.
  entry_cases e; destruct w; simpl; intros H; try discriminate; injection H as <-; simpl;
    try reflexivity; eexists; (split; [reflexivity|apply lookup_insert_eq]).
Qed.

Lemma commit_keeps_holds (e : BatteryHistoryV2Entry) (w w' : write)
    (e' : BatteryHistoryV2Entry) :
  commit e w' = Some e' -> ~ sameTarget w w' -> holds w e -> holds w e'.
Proof.
  entry_cases e; destruct w'; simpl; intros H; try discriminate; injection H as <-;
    destruct w; simpl; try tauto; intros Hne (g' & [= <-] & Hl);
    eexists; (split; [reflexivity|]); now rewrite lookup_insert_ne by congruence.
Qed.

Lemma forEach_commit_last (pre post : list write) (w : write)
    (e e' : BatteryHistoryV2Entry) :
  Forall (fun w' => ~ sameTarget w w') post ->
  forEach commit (pre ++ w :: post)%list e = Some e' -> holds w e'.
Proof.
  intros Hpost. rewrite forEach_app.
  destruct (forEach commit pre e) as [e1|]; simpl; [|discriminate].
  destruct (commit e1 w) as [e2|] eqn:Hw; simpl; [|discriminate].
  apply commit_holds in Hw. revert e2 Hw.
  induction Hpost as [|w' post Hw' Hpost IH]; intros e2 Hw H; simpl in H.
  - now injection H as <-.
  - destruct (commit e2 w') as [e3|] eqn:Hc; simpl in H; [|discriminate].
    apply (IH e3); [|assumption]. now apply commit_keeps_holds with e2 w'.
Qed.

Lemma keyValueWrite_identifier (m : list string) (w : write) :
  keyValueWrite m = Some w -> identifierOf w = sub m 1.
Proof.
  unfold keyValueWrite.
  repeat match goal with
  | |- context [if ?c then _ else _] =>
      let Hc := fresh "Hc" in
      destruct c eqn:Hc;
      [try (destruct (strconv.ParseInt _ _)); simpl; intros [= <-]; simpl;
       try (apply String.eqb_eq in Hc; now rewrite Hc); reflexivity|]
  end.
  discriminate.
Qed.

Lemma sameTarget_identifier (w w' : write) :
  passOf w = KeyValuePass -> sameTarget w w' -> identifierOf w = identifierOf w'.
Proof. destruct w, w'; simpl; try tauto; try discriminate; congruence. Qed.

(** The last effective match of an identifier decides: when a
    key=value match stands for a write and no later match of the same
    identifier stands for one, the entry returned by the scalar pass
    holds the value of that match (in its field, or under its rail name
    in RailCharges). *)
Theorem keyValue_last_match_wins (e e' : BatteryHistoryV2Entry) (line : string)
    (pre post : list (list string)) (m : list string) (w : write) :
  FindAllStringSubmatch keyValuePattern line = (pre ++ m :: post)%list ->
  keyValueWrite m = Some w ->
  (forall m', In m' post -> sub m' 1 = sub m 1 -> keyValueWrite m' = None) ->
  parseKeyValuePairsV2 e line = Some e' ->
  holds w e'.
Proof.
  intros Hms Hw Hpost. rewrite parseKeyValuePairsV2_writes. unfold keyValueWrites.
  rewrite Hms, omap_app. cbn [omap list_omap]. rewrite Hw. fold (omap keyValueWrite post).
  apply forEach_commit_last.
  apply Forall_forall. intros w' Hin Hsame.
  apply list_elem_of_omap in Hin as (m' & Hm' & Hw').
  apply sameTarget_identifier in Hsame; [|now apply keyValueWrite_pass with m].
  rewrite (keyValueWrite_identifier m w Hw), (keyValueWrite_identifier m' w' Hw') in Hsame.
  rewrite Hpost in Hw'; [discriminate|now apply list_elem_of_In|congruence].
Qed.

Lemma keyValue_last_match_wins_witness :
  exists e',
    parseKeyValuePairsV2 freshEntry "status=full volt=x status=discharging volt=4170 volt=y"
      = Some e' /\
    holds (SetVoltage 4170) e'.
Proof.
  eexists. split; [vm_compute; reflexivity|].
  apply (keyValue_last_match_wins freshEntry _
           "status=full volt=x status=discharging volt=4170 volt=y"
           [["status=full"; "status"; "full"]; ["volt=x"; "volt"; "x"];
            ["status=discharging"; "status"; "discharging"]]
           [["volt=y"; "volt"; "y"]] ["volt=4170"; "volt"; "4170"]).
  - vm_compute. reflexivity.
  - vm_compute. reflexivity.
  - intros m' [<-|[]] _. vm_compute. reflexivity.
  - vm_compute. reflexivity.
Defined.

(** ** What each pass leaves alone *)

Lemma forEach_commit_pass (p : pass) (I : BatteryHistoryV2Entry -> Prop) (ws : list write)
    (e e' : BatteryHistoryV2Entry) :
  (forall st w st', passOf w = p -> commit st w = Some st' -> I st -> I st') ->
  Forall (fun w => passOf w = p) ws -> forEach commit ws e = Some e' -> I e -> I e'.
Proof.
  intros Hstep Hws. revert e. induction Hws as [|w ws Hw Hws IH]; intros e H He; simpl in H.
  - now injection H as <-.
  - destruct (commit e w) as [e1|] eqn:Hc; simpl in H; [|discriminate]. eauto.
Qed.

(** Each pass changes its own part of the entry and nothing else: the
    toggle pass only States, the wake-reason pass only WakeReasons, and
    the scalar pass neither of these two maps nor Timestamp, TimestampMs
    or BatteryPercent. *)
Theorem passes_change_only_their_part (e e' : BatteryHistoryV2Entry) (r : string) :
  (parseStateTransitionsV2 e r = Some e' -> e' = set_States (States e') e) /\
  (parseWakeReasonsV2 e r = Some e' -> e' = set_WakeReasons (WakeReasons e') e) /\
  (parseKeyValuePairsV2 e r = Some e' ->
   States e' = States e /\ WakeReasons e' = WakeReasons e /\ Timestamp e' = Timestamp e /\
   TimestampMs e' = TimestampMs e /\ BatteryPercent e' = BatteryPercent e).
Proof.
  split; [|split].
  - rewrite parseStateTransitionsV2_writes. intros H.
    apply (forEach_commit_pass StatePass (fun x => x = set_States (States x) e)
             (stateTransitionWrites r) e e'); [|apply stateTransitionWrites_pass|exact H|].
    + intros st w st' Hw Hc Hst. destruct w; try discriminate Hw. simpl in Hc.
      destruct (States st); simpl in Hc; [|discriminate]. injection Hc as <-.
      rewrite Hst. now destruct e.
    + now destruct e.
  - rewrite parseWakeReasonsV2_writes. intros H.
    apply (forEach_commit_pass WakePass (fun x => x = set_WakeReasons (WakeReasons x) e)
             (wakeReasonWrites r) e e'); [|apply wakeReasonWrites_pass|exact H|].
    + intros st w st' Hw Hc Hst. destruct w; try discriminate Hw. simpl in Hc.
      destruct (WakeReasons st); simpl in Hc; [|discriminate]. injection Hc as <-.
      rewrite Hst. now destruct e.
    + now destruct e.
  - rewrite parseKeyValuePairsV2_writes. intros H.
    apply (forEach_commit_pass KeyValuePass
             (fun x => States x = States e /\ WakeReasons x = WakeReasons e /\
                       Timestamp x = Timestamp e /\ TimestampMs x = TimestampMs e /\
                       BatteryPercent x = BatteryPercent e)
             (keyValueWrites r) e e'); [|apply keyValueWrites_pass|exact H|tauto].
    intros st w st' Hw Hc Hst. entry_cases st; destruct w; simpl in *;
      try discriminate; injection Hc as <-; exact Hst.
Qed.

Lemma passes_change_only_their_part_witness :
  (exists e', parseStateTransitionsV2 freshEntry "+running volt=4170" = Some e' /\
              e' = set_States (States e') freshEntry) /\
  (exists e', parseKeyValuePairsV2 freshEntry "+running volt=4170" = Some e' /\
              States e' = States freshEntry).
Proof.
  split; eexists; (split; [vm_compute; reflexivity|]).
  - apply (proj1 (passes_change_only_their_part freshEntry _ "+running volt=4170")).
    vm_compute. reflexivity.
  - apply (proj2 (proj2 (passes_change_only_their_part freshEntry _ "+running volt=4170"))).
    vm_compute. reflexivity.
Defined.

(** ** The header of a line *)

Lemma commit_BatteryPercent (e : BatteryHistoryV2Entry) (w : write)
    (e' : BatteryHistoryV2Entry) :
  commit e w = Some e' -> BatteryPercent e' = BatteryPercent e.
Proof.
  entry_cases e; destruct w; simpl; intros H; try discriminate; now injection H as <-.
Qed.

(** The parser never stores the sequence number or the state bitmask
    of the header: whatever the line, BatteryPercent of the entry it
    returns is 0. *)
Theorem parsed_BatteryPercent_zero (now : time.Time) (line : string)
    (e : BatteryHistoryV2Entry) (err : option string) :
  ParseHistoryV2Line now line = Some (Some e, err) -> BatteryPercent e = 0%Z.
Proof.
  apply (parsed_keeps (fun x => BatteryPercent x = 0%Z)); [|reflexivity].
  intros st w st' _ Hc <-. now apply commit_BatteryPercent with w.
Qed.

Lemma parsed_BatteryPercent_zero_witness :
  exists e,
    ParseHistoryV2Line time.zero "01-11 12:11:14.405 075 c4002820 status=full"
      = Some (Some e, None) /\ BatteryPercent e = 0%Z.
Proof.
  eexists. split; [vm_compute; reflexivity|].
  apply (parsed_BatteryPercent_zero time.zero
           "01-11 12:11:14.405 075 c4002820 status=full" _ None).
  vm_compute. reflexivity.
Defined.

Lemma num2_range (s : string) (n : Z) (r : string) :
  time.num2 s = Some (n, r) -> (0 <= n <= 99)%Z.
Proof.
  destruct s as [|a [|b s]]; simpl; try discriminate.
  destruct (Chr.digit a) eqn:Ha, (Chr.digit b) eqn:Hb; simpl; try discriminate.
  intros [= <- _]. pose proof (digitVal_range a Ha). pose proof (digitVal_range b Hb). lia.
Qed.

Lemma daysIn_le (m y : Z) : (time.daysIn m y <= 31)%Z.
Proof.
  unfold time.daysIn.
  destruct (m =? 2)%Z; [destruct (time.isLeap y); lia|].
  destruct ((m =? 4)%Z || (m =? 6)%Z || (m =? 9)%Z || (m =? 11)%Z); lia.
Qed.

Ltac parse_step :=
  first
    [ match goal with
      | |- context [time.num2 ?v] =>
          let H := fresh "Hn" in
          destruct (time.num2 v) as [[? ?]|] eqn:H; cbn [mbind option_bind];
          [apply num2_range in H|discriminate]
      end
    | match goal with
      | |- context [time.expect ?a ?v] =>
          destruct (time.expect a v) as [?|]; cbn [mbind option_bind]; [|discriminate]
      end
    | match goal with
      | |- context [if ?c then None else _] =>
          let H := fresh "Hb" in destruct c eqn:H; [discriminate|]
      end ].

(** A timestamp composed by the parser, when it is one, is of the year
    2026 and of the calendar. *)
Lemma Parse_year (md tm : string) (t : time.Time) :
  time.Parse ("2026-" +:+ md +:+ " " +:+ tm) = Some t ->
  time.year t = 2026%Z /\ (1 <= time.month t <= 12)%Z /\ (1 <= time.day t <= 31)%Z /\
  (0 <= time.hour t < 24)%Z /\ (0 <= time.minute t < 60)%Z /\ (0 <= time.second t < 60)%Z.
Proof.
  rewrite !app_cons, app_nil_l. unfold time.Parse.
  assert (forall r, time.num2 (String "2" (String "0" r)) = Some (20%Z, r)) as E1
    by reflexivity.
  assert (forall r, time.num2 (String "2" (String "6" r)) = Some (26%Z, r)) as E2
    by reflexivity.
  assert (forall r, time.expect "-" (String "-" r) = Some r) as E3 by reflexivity.
  rewrite E1. cbn [mbind option_bind]. rewrite E2. cbn [mbind option_bind].
  rewrite E3. cbn [mbind option_bind].
  repeat parse_step.
  match goal with |- match ?p with _ => _ end = _ -> _ => destruct p as [|c [|c' p']] end;
    try discriminate.
  destruct (Chr.digit c); [|discriminate].
  match goal with |- (if ?c then _ else _) = _ -> _ => destruct c eqn:Hd end; [discriminate|].
  intros [= <-]. cbn [time.year time.month time.day time.hour time.minute time.second].
  repeat match goal with
  | H : (_ || _) = false |- _ => apply orb_false_elim in H as [? ?]
  | H : (_ <=? _)%Z = false |- _ => apply Z.leb_gt in H
  | H : (_ <? _)%Z = false |- _ => apply Z.ltb_ge in H
  end.
  match goal with H : (_ <= time.daysIn ?m ?y)%Z |- _ => pose proof (daysIn_le m y) end.
  lia.
Qed.

(** The timestamp of a parsed entry is the one composed from the
    month-day and the time of the line under the year 2026, whatever
    the year of the log, when that is a timestamp of the calendar, and
    the reading of the clock otherwise. *)
Theorem parsed_Timestamp (now : time.Time) (line : string)
    (e : BatteryHistoryV2Entry) (err : option string) :
  ParseHistoryV2Line now line = Some (Some e, err) ->
  match time.Parse (timestampStr (lineMatches line)) with
  | Some t =>
      Timestamp e = t /\ time.year t = 2026%Z /\ (1 <= time.month t <= 12)%Z /\
      (1 <= time.day t <= 31)%Z /\ (0 <= time.hour t < 24)%Z /\
      (0 <= time.minute t < 60)%Z /\ (0 <= time.second t < 60)%Z
  | None => Timestamp e = now
  end.
Proof.
  rewrite ParseHistoryV2Line_clock.
  destruct (length (lineMatches line) =? 0)%nat; [discriminate|].
  destruct (runPasses _ _ _) as [e1|]; simpl; [|discriminate].
  intros [= <- _]. unfold timestampOf.
  destruct (time.Parse (timestampStr (lineMatches line))) as [t|] eqn:Ht; simpl.
  - split; [now destruct e1|]. now apply Parse_year in Ht.
  - now destruct e1.
Qed.

Lemma parsed_Timestamp_witness :
  exists e,
    ParseHistoryV2Line time.zero "12-31 23:59:59.999 075 c4002820 status=full"
      = Some (Some e, None) /\
    Timestamp e = time.Date 2026 12 31 23 59 59 999000000.
Proof.
  eexists. split; [vm_compute; reflexivity|].
  pose proof (parsed_Timestamp time.zero "12-31 23:59:59.999 075 c4002820 status=full" _ None
                ltac:(vm_compute; reflexivity)) as H.
  vm_compute in H. exact (proj1 H).
Defined.

(** ** The groups of the line pattern *)

Lemma exec_groups (s : string) :
  Format2 s ->
  exists md ws1 tm ws2 sq ws3 hx ws4 rest,
    s = md +:+ ws1 +:+ tm +:+ ws2 +:+ sq +:+ ws3 +:+ hx +:+ ws4 +:+ rest /\
    shaped monthDayShape md = true /\ nonEmptyRun Chr.space ws1 = true /\
    shaped timeOfDayShape tm = true /\ nonEmptyRun Chr.space ws2 = true /\
    nonEmptyRun Chr.digit sq = true /\ nonEmptyRun Chr.space ws3 = true /\
    nonEmptyRun Chr.hex hx = true /\ nonEmptyRun Chr.space ws4 = true /\
    allb Chr.any rest = true /\ starts Chr.space rest = false /\
    exec historyLinePatternV2 true s = Some ([s; md; tm; sq; hx; rest], "").
Proof.
  intros (md & ws1 & tm & ws2 & sq & ws3 & hx & ws4 & rest & -> & Hmd & H1 & Htm & H2
          & Hsq & H3 & Hhx & H4 & Hrest).
  destruct (span_exists Chr.space rest) as (ws5 & rest' & -> & H5 & Hrest').
  rewrite allb_app in Hrest. apply andb_prop in Hrest as [_ Hrest].
  exists md, ws1, tm, ws2, sq, ws3, hx, (ws4 +:+ ws5), rest'.
  assert (nonEmptyRun Chr.space (ws4 +:+ ws5) = true) as H45.
  { apply nonEmptyRun_inv in H4 as [H4 N4]. apply nonEmptyRun_intro.
    - now rewrite allb_app, H4, H5.
    - destruct ws4; [congruence|discriminate]. }
  rewrite <- (app_assoc ws4 ws5 rest').
  generalize dependent (ws4 +:+ ws5). clear ws4 ws5 H4 H5. intros ws H45.
  repeat (split; [first [reflexivity | assumption]|]).
  pose proof Hmd as Hmd'. pose proof Htm as Htm'.
  unfold monthDayShape in Hmd. unfold timeOfDayShape in Htm.
  shape_inv Hmd. shape_inv Htm.
  apply nonEmptyRun_inv in H1 as [H1 N1], H2 as [H2 N2], Hsq as [Hsq Nsq],
    H3 as [H3 N3], Hhx as [Hhx Nhx], H45 as [H45 N45].
  unfold exec. unfold_pattern. rewrite !app_cons, !app_nil_l.
  repeat step.
  apply plus_longest; [assumption..| |].
  { simpl. now apply digit_not_space. }
  repeat step.
  apply plus_longest; [assumption..| |].
  { apply (starts_run Chr.digit); [apply digit_not_space|assumption..]. }
  repeat step.
  apply plus_longest; [assumption..| |].
  { apply (starts_run Chr.space); [apply space_not_digit|assumption..]. }
  repeat step.
  apply plus_longest; [assumption..| |].
  { apply (starts_run Chr.hex); [apply hex_not_space|assumption..]. }
  repeat step.
  apply plus_longest; [assumption..| |].
  { apply (starts_run Chr.space); [apply space_not_hex|assumption..]. }
  repeat step.
  apply plus_longest; [assumption..|].
  repeat step. rewrite run_star.
  rewrite <- (app_nil_r rest') at 1.
  apply greedy_longest; [assumption|reflexivity|].
  repeat step.
  rewrite !taken_all, !taken_app.
  match goal with
  | |- context [taken (String ?a (String ?b (String "-" (String ?c (String ?d ?r))))) ?r] =>
      rewrite (taken_eq _ (String a (String b (String "-" (String c (String d ""))))) r)
        by reflexivity
  end.
  match goal with
  | |- context [taken (String ?t1 (String ?t2 (String ":" (String ?t3 (String ?t4 (String ":"
                 (String ?t5 (String ?t6 (String "." (String ?t7 (String ?t8 (String ?t9 ?r))))))))))))
                 ?r] =>
      rewrite (taken_eq _ (String t1 (String t2 (String ":" (String t3 (String t4 (String ":"
                 (String t5 (String t6 (String "." (String t7 (String t8 (String t9 ""))))))))))))
                 r) by reflexivity
  end.
  reflexivity.
Qed.

(** On a string of the grammar the pattern reports six submatches:
    the string, the month-day, the time of day, the sequence number,
    the bitmask and the remainder; the white space before the remainder
    is all left out of it, so the remainder does not begin with white
    space, and it has no newline. *)
Theorem line_groups (s : string) :
  Format2 s ->
  exists md ws1 tm ws2 sq ws3 hx ws4 rest,
    s = md +:+ ws1 +:+ tm +:+ ws2 +:+ sq +:+ ws3 +:+ hx +:+ ws4 +:+ rest /\
    shaped monthDayShape md = true /\ nonEmptyRun Chr.space ws1 = true /\
    shaped timeOfDayShape tm = true /\ nonEmptyRun Chr.space ws2 = true /\
    nonEmptyRun Chr.digit sq = true /\ nonEmptyRun Chr.space ws3 = true /\
    nonEmptyRun Chr.hex hx = true /\ nonEmptyRun Chr.space ws4 = true /\
    allb Chr.any rest = true /\ starts Chr.space rest = false /\
    FindStringSubmatch historyLinePatternV2 s = [s; md; tm; sq; hx; rest].
Proof.
  intros (md & ws1 & tm & ws2 & sq & ws3 & hx & ws4 & rest & Hs & Hmd & H1 & Htm & H2
          & Hsq & H3 & Hhx & H4 & Hrest & Hstart & He)%exec_groups.
  exists md, ws1, tm, ws2, sq, ws3, hx, ws4, rest.
  repeat (split; [assumption|]).
  unfold FindStringSubmatch. now rewrite search_unfold, He.
Qed.

Lemma line_groups_witness :
  Format2 "01-11 12:11:14.405 075 c4002820  	 status=full" /\
  FindStringSubmatch historyLinePatternV2 "01-11 12:11:14.405 075 c4002820  	 status=full"
  = ["01-11 12:11:14.405 075 c4002820  	 status=full"; "01-11"; "12:11:14.405"; "075";
     "c4002820"; "status=full"].
Proof.
  assert (Format2 "01-11 12:11:14.405 075 c4002820  	 status=full") as H.
  { apply Format2_MatchString. vm_compute. reflexivity. }
  split; [exact H|].
  destruct (line_groups _ H) as (md & ws1 & tm & ws2 & sq & ws3 & hx & ws4 & rest & _ & _ & _
                                 & _ & _ & _ & _ & _ & _ & _ & _ & _).
  vm_compute. reflexivity.
Defined.

(** ** Trimming *)

Lemma runeWidth_nil (table : list string) : strings.runeWidth table "" = 0%nat.
Proof.
  induction table as [|t table IH]; simpl; [reflexivity|].
  destruct t; [reflexivity|exact IH].
Qed.

(** What is left after the leading runes are cut does not begin with a
    rune of the table. *)
Lemma trimLeading_done (table : list string) (skip : nat) (s : string) :
  strings.runeWidth table (strings.trimLeading table skip s) = 0%nat.
Proof.
  revert skip. induction s as [|c s IH]; intros skip; cbn [strings.trimLeading].
  - apply runeWidth_nil.
  - destruct skip as [|n]; [|apply IH].
    destruct (strings.runeWidth table (String c s)) eqn:Hw; [exact Hw|apply IH].
Qed.

Lemma reverse_reverse (s : string) : strings.reverse (strings.reverse s) = s.
Proof.
  unfold strings.reverse.
  now rewrite list_ascii_of_string_of_list_ascii, rev_involutive,
    string_of_list_ascii_of_string.
Qed.

Lemma list_ascii_app (s t : string) :
  list_ascii_of_string (s +:+ t) = (list_ascii_of_string s ++ list_ascii_of_string t)%list.
Proof.
  induction s as [|c s IH]; [reflexivity|]. rewrite app_cons. simpl. now rewrite IH.
Qed.

Lemma reverse_snoc (w : string) (c : ascii) :
  strings.reverse (w +:+ String c "") = String c (strings.reverse w).
Proof.
  unfold strings.reverse. rewrite list_ascii_app, rev_app_distr. reflexivity.
Qed.

Lemma space_cases (c : ascii) :
  Chr.space c = true ->
  c = Chr.tab \/ c = Chr.nl \/ c = Chr.ff \/ c = Chr.cr \/ c = Chr.sp.
Proof.
  unfold Chr.space, Chr.same.
  intros H. repeat (apply orb_prop in H as [H|H]); apply Ascii.eqb_eq in H; auto.
Qed.

(** The trimmed string does not end with a byte of the class of white
    space of the patterns. *)
Lemma TrimSpace_last (s w : string) (c : ascii) :
  strings.TrimSpace s = w +:+ String c "" -> Chr.space c = false.
Proof.
  intros H. apply (f_equal strings.reverse) in H.
  unfold strings.TrimSpace in H. rewrite reverse_reverse, reverse_snoc in H.
  pose proof (trimLeading_done (map strings.reverse strings.spaceRunes) 0
                (strings.reverse (strings.trimLeading strings.spaceRunes 0 s))) as Hd.
  rewrite H in Hd. destruct (Chr.space c) eqn:Hc; [|reflexivity].
  destruct (strings.reverse w);
    apply space_cases in Hc as [->|[->|[->|[->| ->]]]]; vm_compute in Hd; discriminate Hd.
Qed.

Lemma nonEmptyRun_last (p : ascii -> bool) (w : string) :
  nonEmptyRun p w = true -> exists w' c, w = w' +:+ String c "" /\ p c = true.
Proof.
  intros [Hw Hne]%nonEmptyRun_inv. induction w as [|a w IH]; [congruence|].
  simpl in Hw. apply andb_prop in Hw as [Ha Hw].
  destruct w as [|b w].
  - exists "", a. auto.
  - destruct IH as (w' & c & -> & Hc); [assumption|discriminate|].
    exists (String a w'), c. auto.
Qed.

Lemma lineMatches_Format2 (line : string) :
  lineMatches line <> [] -> Format2 (strings.TrimSpace line).
Proof.
  unfold lineMatches, FindStringSubmatch. intros H.
  destruct (Format2_dec (strings.TrimSpace line)) as [Hf|Hn]; [exact Hf|].
  apply search_line in Hn. now rewrite Hn in H.
Qed.

(** The remainder of an accepted line is never empty: a line that
    ends after its bitmask, with or without white space around it, is
    rejected as malformed.  The remainder handed to the passes has no
    newline and does not begin with white space. *)
Theorem accepted_remainder_not_empty (now : time.Time) (line : string)
    (e : BatteryHistoryV2Entry) (err : option string) :
  ParseHistoryV2Line now line = Some (Some e, err) ->
  sub (lineMatches line) 5 <> "" /\
  allb Chr.any (sub (lineMatches line) 5) = true /\
  starts Chr.space (sub (lineMatches line) 5) = false.
Proof.
  rewrite ParseHistoryV2Line_passes.
  destruct (length (lineMatches line) =? 0)%nat eqn:Hl; [discriminate|]. intros _.
  assert (lineMatches line <> []) as Hm by (intros E; now rewrite E in Hl).
  apply lineMatches_Format2 in Hm.
  destruct (exec_groups _ Hm) as (md & ws1 & tm & ws2 & sq & ws3 & hx & ws4 & rest & Hs & _ & _
                                  & _ & _ & _ & _ & _ & H4 & Hrest & Hstart & He).
  unfold lineMatches, FindStringSubmatch. rewrite search_unfold, He.
  cbn [sub nth]. split; [|split; assumption].
  intros ->. apply nonEmptyRun_last in H4 as (w' & c & -> & Hc).
  rewrite app_nil_r in Hs.
  replace (md +:+ ws1 +:+ tm +:+ ws2 +:+ sq +:+ ws3 +:+ hx +:+ w' +:+ String c "")
    with ((md +:+ ws1 +:+ tm +:+ ws2 +:+ sq +:+ ws3 +:+ hx +:+ w') +:+ String c "") in Hs
    by (now rewrite !app_assoc).
  apply TrimSpace_last in Hs. congruence.
Qed.

Lemma accepted_remainder_not_empty_witness :
  exists e,
    ParseHistoryV2Line time.zero " 01-11 12:11:14.405 075 c4002820  -running "
      = Some (Some e, None) /\
    sub (lineMatches " 01-11 12:11:14.405 075 c4002820  -running ") 5 <> "".
Proof.
  eexists. split; [vm_compute; reflexivity|].
  eapply (accepted_remainder_not_empty time.zero
            " 01-11 12:11:14.405 075 c4002820  -running " _ None).
  vm_compute. reflexivity.
Defined.

(** A line made of the header alone is rejected. *)
Example header_only_rejected :
  ParseHistoryV2Line time.zero "01-11 12:11:14.405 075 c4002820 " = Some (None, Some errInvalidFormat).
Proof. vm_compute. reflexivity. Qed.

(** ** Lines with white space around them *)

Lemma runeWidth_asciiSpace (c : ascii) (s : string) :
  strings.asciiSpace c = true -> strings.runeWidth strings.spaceRunes (String c s) = 1%nat.
Proof.
  unfold strings.asciiSpace, Chr.same. intros H.
  repeat (apply orb_prop in H as [H|H]); apply Ascii.eqb_eq in H; subst c;
    destruct s; vm_compute; reflexivity.
Qed.

Lemma TrimSpace_leading (ws s : string) :
  allb strings.asciiSpace ws = true -> strings.TrimSpace (ws +:+ s) = strings.TrimSpace s.
Proof.
  unfold strings.TrimSpace. induction ws as [|c ws IH]; [reflexivity|].
  cbn [allb]. intros [Hc Hws]%andb_prop. rewrite app_cons. cbn [strings.trimLeading].
  rewrite (runeWidth_asciiSpace c _ Hc). auto.
Qed.

(** What [trimLeading] returns is a suffix of its argument. *)
Lemma trimLeading_suffix (table : list string) (skip : nat) (s : string) :
  exists p, s = p +:+ strings.trimLeading table skip s.
Proof.
  revert skip. induction s as [|c s IH]; intros skip; cbn [strings.trimLeading].
  - now exists "".
  - destruct skip as [|n].
    + destruct (strings.runeWidth table (String c s)) as [|w]; [now exists ""|].
      destruct (IH w) as [p Hp]. exists (String c p). rewrite app_cons. now f_equal.
    + destruct (IH n) as [p Hp]. exists (String c p). rewrite app_cons. now f_equal.
Qed.

Lemma trimLeading_fixed (table : list string) (s : string) :
  strings.runeWidth table s = 0%nat -> strings.trimLeading table 0 s = s.
Proof. destruct s as [|c s]; [reflexivity|]. cbn [strings.trimLeading]. now intros ->. Qed.

Lemma prefix_app (t x y : string) : String.prefix t x = true -> String.prefix t (x +:+ y) = true.
Proof.
  revert x. induction t as [|a t IH]; intros x; [destruct x; [destruct y|]; reflexivity|].
  destruct x as [|b x]; [discriminate|]. rewrite app_cons. simpl.
  destruct (ascii_dec a b); [apply IH|discriminate].
Qed.

Lemma prefix_nil_r (t : string) : String.prefix t "" = true -> t = "".
Proof. destruct t; [reflexivity|discriminate]. Qed.

(** A string that begins with no rune of the table has no prefix that
    begins with one, the empty rune apart. *)
Lemma runeWidth_prefix (table : list string) (x y : string) :
  strings.runeWidth table (x +:+ y) = 0%nat -> strings.runeWidth table x = 0%nat.
Proof.
  induction table as [|t table IH]; simpl; [reflexivity|].
  destruct (String.prefix t x) eqn:Hp.
  - now rewrite (prefix_app t x y Hp).
  - destruct (String.prefix t (x +:+ y)); [|exact IH].
    intros H. destruct t; [|discriminate]. now destruct x.
Qed.

Lemma reverse_app (s t : string) :
  strings.reverse (s +:+ t) = strings.reverse t +:+ strings.reverse s.
Proof.
  unfold strings.reverse. rewrite list_ascii_app, rev_app_distr.
  generalize (rev (list_ascii_of_string t)) as l. intros l.
  induction l as [|a l IH]; [reflexivity|]. simpl. rewrite app_cons. now f_equal.
Qed.

(** Trimming a trimmed string changes nothing. *)
Lemma TrimSpace_idempotent (s : string) :
  strings.TrimSpace (strings.TrimSpace s) = strings.TrimSpace s.
Proof.
  unfold strings.TrimSpace.
  set (A := strings.trimLeading strings.spaceRunes 0 s).
  set (Y := strings.trimLeading (map strings.reverse strings.spaceRunes) 0 (strings.reverse A)).
  assert (strings.runeWidth strings.spaceRunes (strings.reverse Y) = 0%nat) as H1.
  { destruct (trimLeading_suffix (map strings.reverse strings.spaceRunes) 0 (strings.reverse A))
      as [p Hp]. fold Y in Hp.
    apply (f_equal strings.reverse) in Hp. rewrite reverse_reverse, reverse_app in Hp.
    apply (runeWidth_prefix _ _ (strings.reverse p)). rewrite <- Hp. apply trimLeading_done. }
  rewrite (trimLeading_fixed _ _ H1), reverse_reverse.
  rewrite (trimLeading_fixed _ Y); [reflexivity|apply trimLeading_done].
Qed.

(** The parser does not see ASCII white space in front of a line: with
    it and without it the result is the same, an entry or the error. *)
Theorem leading_space_ignored (now : time.Time) (ws line : string) :
  allb strings.asciiSpace ws = true ->
  ParseHistoryV2Line now (ws +:+ line) = ParseHistoryV2Line now line.
Proof. intros H. unfold ParseHistoryV2Line. now rewrite (TrimSpace_leading ws line H). Qed.

Lemma leading_space_ignored_witness :
  allb strings.asciiSpace "   " = true /\
  ParseHistoryV2Line time.zero ("   " +:+ "01-11 12:11:14.405 075 c4002820 volt=4170")
  = ParseHistoryV2Line time.zero "01-11 12:11:14.405 075 c4002820 volt=4170".
Proof.
  split; [reflexivity|]. apply (leading_space_ignored time.zero "   " _). reflexivity.
Defined.

(** The parser gives a line and its trimmed form the same result:
    trimming is idempotent, so nothing of the result depends on the
    white space, ASCII or not, that [strings.TrimSpace] removes. *)
Theorem trimmed_line_parses_alike (now : time.Time) (line : string) :
  strings.TrimSpace (strings.TrimSpace line) = strings.TrimSpace line /\
  ParseHistoryV2Line now (strings.TrimSpace line) = ParseHistoryV2Line now line.
Proof.
  split; [apply TrimSpace_idempotent|].
  unfold ParseHistoryV2Line. now rewrite TrimSpace_idempotent.
Qed.

(** ** The detector *)

Lemma Format2_starts_digit (s : string) : Format2 s -> starts Chr.digit s = true.
Proof.
  intros (md & ws1 & tm & ws2 & sq & ws3 & hx & ws4 & rest & -> & Hmd & _).
  unfold monthDayShape in Hmd. apply shaped_cons in Hmd as (c & md' & -> & Hc & _).
  rewrite app_cons. exact Hc.
Qed.

Lemma detectLines_range (lines : list string) :
  detectLines lines = 1%Z \/ detectLines lines = 2%Z.
Proof.
  induction lines as [|l lines IH]; simpl; [now left|].
  destruct (strings.HasPrefix _ _); [now left|].
  destruct (MatchString _ _); [now right|exact IH].
Qed.

Lemma detectLines_two (lines : list string) :
  detectLines lines = 2%Z ->
  exists pre line post,
    lines = (pre ++ line :: post)%list /\
    Forall (fun l => legacyLine l = false /\ format2Raw l = false) pre /\
    format2Raw line = true.
Proof.
  unfold format2Raw, legacyLine.
  induction lines as [|l lines IH]; simpl; [discriminate|].
  destruct (strings.HasPrefix (strings.TrimSpace l) "9,h,") eqn:Hl; [discriminate|].
  destruct (MatchString historyLinePatternV2 l) eqn:Hm.
  - intros _. exists [], l, lines. rewrite Hl, Hm. auto.
  - intros (pre & line & post & -> & Hpre & Hline)%IH.
    exists (l :: pre), line, post. split; [reflexivity|]. split; [|assumption].
    constructor; [|assumption]. now rewrite Hl, Hm.
Qed.

Lemma detectLines_decided (l1 l2 : list string) :
  Exists (fun l => legacyLine l = true \/ format2Raw l = true) l1 ->
  detectLines (l1 ++ l2)%list = detectLines l1.
Proof.
  unfold format2Raw, legacyLine.
  induction l1 as [|l l1 IH]; intros H; [inversion H|]. simpl.
  destruct (strings.HasPrefix (strings.TrimSpace l) "9,h,") eqn:Hl; [reflexivity|].
  destruct (MatchString historyLinePatternV2 l) eqn:Hm; [reflexivity|].
  apply IH. inversion H as [? ? [Hd|Hd]|]; subst; [congruence| |assumption].
  rewrite Hl, Hm in Hd. discriminate.
Qed.

Lemma Split_nonempty (s : string) (sep : ascii) : strings.Split s sep <> [].
Proof.
  destruct s as [|c s]; simpl; [discriminate|].
  destruct (Ascii.eqb c sep); [discriminate|]. now destruct (strings.Split s sep).
Qed.

(** Splitting a text at a separator byte splits its parts. *)
Lemma Split_app (a b : string) (sep : ascii) :
  strings.Split (a +:+ String sep b) sep = (strings.Split a sep ++ strings.Split b sep)%list.
Proof.
  induction a as [|c a IH].
  - rewrite app_nil_l. simpl. now rewrite Ascii.eqb_refl.
  - rewrite app_cons. simpl. rewrite IH.
    destruct (Ascii.eqb c sep); [reflexivity|].
    pose proof (Split_nonempty a sep). now destruct (strings.Split a sep).
Qed.

(** The detector answers 1 or 2, and 2 exactly when the first line
    that is a legacy line or matches the grammar as it stands is not a
    legacy line: the document splits into lines of neither kind, a line
    that matches without being a legacy line, and the rest. *)
Theorem detector_answers (text : string) :
  (DetectHistoryFormatVersion text = 1%Z \/ DetectHistoryFormatVersion text = 2%Z) /\
  (DetectHistoryFormatVersion text = 2%Z <->
   exists pre line post,
     strings.Split text Chr.nl = (pre ++ line :: post)%list /\
     Forall (fun l => legacyLine l = false /\ format2Raw l = false) pre /\
     format2Raw line = true).
Proof.
  unfold DetectHistoryFormatVersion. split; [apply detectLines_range|]. split.
  - apply detectLines_two.
  - intros (pre & line & post & -> & Hpre & Hline).
    now apply (detectLines_first pre line post Hpre).
Qed.

(** The detector stops at the first decisive line: once a document
    has a legacy line or a line that matches the grammar, whatever text
    is appended after a newline leaves the answer as it is. *)
Theorem detector_short_circuits (text more : string) :
  Exists (fun l => legacyLine l = true \/ format2Raw l = true) (strings.Split text Chr.nl) ->
  DetectHistoryFormatVersion (text +:+ String Chr.nl more) = DetectHistoryFormatVersion text.
Proof.
  intros H. unfold DetectHistoryFormatVersion. rewrite Split_app.
  now apply detectLines_decided.
Qed.

Lemma detector_short_circuits_witness :
  DetectHistoryFormatVersion
    ("header" +:+ String Chr.nl "01-11 12:11:14.405 075 c4002820 +running"
     +:+ String Chr.nl "9,h,0,Bl=52")
  = DetectHistoryFormatVersion
      ("header" +:+ String Chr.nl "01-11 12:11:14.405 075 c4002820 +running").
Proof.
  apply (detector_short_circuits
           ("header" +:+ String Chr.nl "01-11 12:11:14.405 075 c4002820 +running")
           "9,h,0,Bl=52").
  replace (strings.Split
             ("header" +:+ String Chr.nl "01-11 12:11:14.405 075 c4002820 +running") Chr.nl)
    with ["header"; "01-11 12:11:14.405 075 c4002820 +running"] by (vm_compute; reflexivity).
  apply Exists_cons_tl, Exists_cons_hd. right. vm_compute. reflexivity.
Defined.

(** Only a line that begins with a digit can make the detector answer
    2: a line that begins with anything else, white space included, does
    not match the grammar as it stands, and a document none of whose
    lines begins with a digit is version 1, also when the parser accepts
    every line of it. *)
Theorem detector_needs_digit_start :
  (forall line, starts Chr.digit line = false ->
     MatchString historyLinePatternV2 line = false) /\
  (forall text,
     Forall (fun l => starts Chr.digit l = false) (strings.Split text Chr.nl) ->
     DetectHistoryFormatVersion text = 1%Z).
Proof.
  assert (forall line, starts Chr.digit line = false ->
            MatchString historyLinePatternV2 line = false) as Hline.
  { intros line Hs. destruct (MatchString historyLinePatternV2 line) eqn:Hm; [|reflexivity].
    apply Format2_MatchString, Format2_starts_digit in Hm. congruence. }
  split; [exact Hline|]. intros text. unfold DetectHistoryFormatVersion.
  induction 1 as [|l lines Hl _ IH]; simpl; [reflexivity|].
  destruct (strings.HasPrefix _ _); [reflexivity|]. now rewrite (Hline l Hl).
Qed.

Lemma detector_needs_digit_start_witness :
  (exists e, ParseHistoryV2Line time.zero " 01-11 12:11:14.405 075 c4002820 +running"
             = Some (Some e, None)) /\
  DetectHistoryFormatVersion
    (" 01-11 12:11:14.405 075 c4002820 +running" +:+ String Chr.nl
     " 01-11 12:11:15.405 076 c4002820 -running") = 1%Z.
Proof.
  split; [eexists; vm_compute; reflexivity|].
  apply (proj2 detector_needs_digit_start). vm_compute.
  repeat constructor.
Defined.

(** ** The value of the CSV entry *)

Lemma Join_cons_ne (x : string) (l : list string) (sep : string) :
  x <> "" -> strings.Join (x :: l) sep <> "".
Proof.
  unfold strings.Join. destruct x as [|c x]; [congruence|]. intros _.
  destruct l; simpl; [discriminate|]. rewrite app_cons. discriminate.
Qed.

(** The value of the CSV entry is empty exactly when nothing is
    rendered: Status and Health are empty and neither Voltage nor
    Temperature is positive.  An entry with a negative voltage and
    nothing else therefore projects to the same value as an entry
    without any field. *)
Theorem csv_value_empty (e : BatteryHistoryV2Entry) :
  csv.Value (ConvertToCSVEntry e) = "" <->
  Status e = "" /\ Health e = "" /\ (Voltage e <= 0)%Z /\ (Temperature e <= 0)%Z.
Proof.
  unfold ConvertToCSVEntry. cbn [csv.Value].
  destruct (String.eqb_spec (Status e) "") as [Hs|Hs];
    destruct (String.eqb_spec (Health e) "") as [Hh|Hh];
    destruct (Z.ltb_spec 0 (Voltage e)) as [Hv|Hv];
    destruct (Z.ltb_spec 0 (Temperature e)) as [Ht|Ht];
    cbn [negb appendIf app];
    (split;
     [ intros H;
       try (exfalso; revert H; apply Join_cons_ne; rewrite app_cons; discriminate);
       repeat split; (assumption || lia)
     | intros (H1 & H2 & H3 & H4); try congruence; try lia; reflexivity ]).
Qed.

(** ** Remainders without the mark of a pass *)

(** A match of the scan begins at a position of the string. *)
Lemma scan_suffix (r : regex) (b : bool) (skip pos : nat) (s : string) (m : list string) :
  In m (map snd (scan r b skip pos s)) ->
  exists b' pre suf rest, s = pre +:+ suf /\ exec r b' suf = Some (m, rest).
Proof.
  revert b skip pos. induction s as [|c s IH]; intros b skip pos; simpl; [tauto|].
  assert (forall b0 n p, In m (map snd (scan r b0 n p s)) ->
            exists b' pre suf rest,
              String c s = pre +:+ suf /\ exec r b' suf = Some (m, rest)) as Htl.
  { intros b0 n p (b' & pre & suf & rest & -> & He)%IH.
    exists b', (String c pre), suf, rest. now rewrite app_cons. }
  destruct skip as [|n]; [|apply Htl].
  destruct (exec r b (String c s)) as [[m' rest]|] eqn:He; simpl; [|apply Htl].
  intros [<-|H]; [|now apply Htl in H].
  exists b, "", (String c s), rest. now rewrite app_nil_l.
Qed.

(** A pattern whose every match holds a byte outside the class [p]
    finds nothing in a string of bytes of [p]. *)
Lemma FindAllStringSubmatch_unmarked (p : ascii -> bool) (r : regex) (s : string) :
  (forall b suf m rest, exec r b suf = Some (m, rest) ->
     exists x c y, suf = x +:+ String c y /\ p c = false) ->
  allb p s = true -> FindAllStringSubmatch r s = [].
Proof.
  intros Hr Hs. destruct (FindAllStringSubmatch r s) as [|m ms] eqn:E; [reflexivity|].
  assert (In m (FindAllStringSubmatch r s)) as Hin by (rewrite E; now left).
  apply scan_suffix in Hin as (b' & pre & suf & rest & -> & He).
  apply Hr in He as (x & c & y & -> & Hc).
  rewrite !allb_app in Hs. cbn [allb] in Hs. rewrite Hc in Hs.
  rewrite andb_false_r, ?andb_false_l, ?andb_false_r in Hs. discriminate.
Qed.

Lemma keyValue_match_marked (b : bool) (suf : string) (m : list string) (rest : string) :
  exec keyValuePattern b suf = Some (m, rest) ->
  exists x c y, suf = x +:+ String c y /\ negb (Chr.same "=" c) = false.
Proof.
  intros (k & v & _ & _ & -> & _)%keyValue_of_exec.
  exists k, "="%char, (v +:+ rest). split; reflexivity.
Qed.

Lemma wakeReason_match_marked (b : bool) (suf : string) (m : list string) (rest : string) :
  exec wakeReasonPattern b suf = Some (m, rest) ->
  exists x c y, suf = x +:+ String c y /\ negb (Chr.same "=" c) = false.
Proof.
  intros (d & t & _ & -> & _)%wakeToken_of_exec. rewrite wakeToken_app.
  exists "wake_reason", "="%char,
    (d +:+ String ":" (String Chr.dquote (t +:+ String Chr.dquote rest))).
  split; reflexivity.
Qed.

Lemma stateTransition_match_marked (b : bool) (suf : string) (m : list string)
    (rest : string) :
  exec stateTransitionPattern b suf = Some (m, rest) ->
  exists x c y, suf = x +:+ String c y /\ negb (Chr.sign c) = false.
Proof.
  intros (sg & w & Hsg & _ & -> & _)%stateTransition_of_exec.
  exists "", sg, (w +:+ rest). split; [now rewrite app_nil_l, app_cons|].
  now rewrite Hsg.
Qed.

(** A remainder without an equals sign leaves the scalar pass and the
    wake-reason pass without a match, and a remainder without a plus or
    minus sign leaves the toggle pass without one: the pass returns the
    entry as it received it, and does not panic even on an entry whose
    maps are nil. *)
Theorem passes_need_their_mark (e : BatteryHistoryV2Entry) (r : string) :
  (allb (fun c => negb (Chr.same "=" c)) r = true ->
   parseKeyValuePairsV2 e r = Some e /\ parseWakeReasonsV2 e r = Some e) /\
  (allb (fun c => negb (Chr.sign c)) r = true ->
   parseStateTransitionsV2 e r = Some e).
Proof.
  unfold parseKeyValuePairsV2, parseWakeReasonsV2, parseStateTransitionsV2. split.
  - intros H.
    rewrite (FindAllStringSubmatch_unmarked _ _ r keyValue_match_marked H).
    rewrite (FindAllStringSubmatch_unmarked _ _ r wakeReason_match_marked H).
    split; reflexivity.
  - intros H.
    rewrite (FindAllStringSubmatch_unmarked _ _ r stateTransition_match_marked H).
    reflexivity.
Qed.

Lemma passes_need_their_mark_witness :
  parseKeyValuePairsV2 (mkEntry time.zero 0 0 0 0 0 "" "" "" "" "" 0 "" "" None None None)
    "+running -wifi,+screen" 
  = Some (mkEntry time.zero 0 0 0 0 0 "" "" "" "" "" 0 "" "" None None None) /\
  parseStateTransitionsV2 freshEntry "status=full volt=4170" = Some freshEntry.
Proof.
  split.
  - apply (proj1 (passes_need_their_mark _ "+running -wifi,+screen")). reflexivity.
  - apply (proj2 (passes_need_their_mark freshEntry "status=full volt=4170")). reflexivity.
Defined.

(** ** The guards of the toggle pass *)

Lemma prefix_refl (x y : string) : String.prefix x (x +:+ y) = true.
Proof.
  induction x as [|c x IH]; [now destruct y|]. rewrite app_cons. simpl.
  destruct (ascii_dec c c); [exact IH|congruence].
Qed.

Lemma Index_prefix (s x : string) : String.prefix x s = true -> strings.Index s x = 0%Z.
Proof. intros H. destruct s; cbn [strings.Index]; now rewrite H. Qed.

(** A text that occurs in a string is found. *)
Lemma Index_occurs (pre x post : string) : (0 <= strings.Index (pre +:+ x +:+ post) x)%Z.
Proof.
  induction pre as [|c pre IH].
  - rewrite app_nil_l, (Index_prefix _ _ (prefix_refl x post)). lia.
  - rewrite app_cons. cbn [strings.Index].
    destruct (String.prefix x _); [lia|].
    destruct (Z.ltb_spec (strings.Index (pre +:+ x +:+ post) x) 0); lia.
Qed.

Lemma Index_absent (s : string) :
  allb (fun c => negb (Chr.same "=" c)) s = true -> strings.Index s "=" = (-1)%Z.
Proof.
  induction s as [|c s IH]; [reflexivity|].
  cbn [allb]. intros [Hc Hs]%andb_prop. cbn [strings.Index String.prefix].
  destruct (ascii_dec "=" c) as [<-|_]; [discriminate Hc|]. now rewrite (IH Hs).
Qed.

Lemma sign_not_equals (c : ascii) : Chr.sign c = true -> negb (Chr.same "=" c) = true.
Proof. by_bytes c. Qed.

Lemma word_not_equals (c : ascii) : Chr.word c = true -> negb (Chr.same "=" c) = true.
Proof. by_bytes c. Qed.

Lemma allb_impl (p q : ascii -> bool) (s : string) :
  (forall c, p c = true -> q c = true) -> allb p s = true -> allb q s = true.
Proof.
  intros Hpq. induction s as [|c s IH]; [reflexivity|].
  cbn [allb]. intros [Hc Hs]%andb_prop. now rewrite (Hpq c Hc), IH.
Qed.

(** Two of the guards of the toggle pass never reject a match.  The
    text of a match of the toggle pattern is a sign and a run of word
    bytes, so it holds no equals sign, and it occurs in the remainder,
    so [strings.Index] finds it.  What decides is the boundary rule
    alone, applied at the first occurrence of the matched text; the two
    bytes it reads are inside the remainder, so the pass does not
    panic there. *)
Theorem toggle_guards_never_reject (line : string) (m : list string) :
  In m (FindAllStringSubmatch stateTransitionPattern line) ->
  strings.Contains (sub m 0) "=" = false /\
  (0 <= strings.Index line (sub m 0))%Z /\
  toggleAccepted line m = boundedToggle line (Z.to_nat (strings.Index line (sub m 0))) m.
Proof.
  intros (b & pre & suf & rest & -> & (sg & w & Hsg & Hw & -> & ->)%stateTransition_of_exec)
    %scan_suffix.
  cbn [sub nth]. apply nonEmptyRun_inv in Hw as [Hw _].
  assert (0 <= strings.Index (pre +:+ String sg w +:+ rest) (String sg w))%Z as Hi
    by apply Index_occurs.
  split; [|split; [exact Hi|]].
  - unfold strings.Contains. rewrite Index_absent; [reflexivity|].
    cbn [allb]. rewrite (sign_not_equals sg Hsg). cbn [andb].
    apply (allb_impl Chr.word); [apply word_not_equals|exact Hw].
  - apply (toggleAccepted_first_occurrence _ [String sg w; String sg ""; w]). exact Hi.
Qed.

Lemma toggle_guards_never_reject_witness :
  strings.Contains "+wake_lock" "=" = false /\
  (0 <= strings.Index "-wifi +wake_lock=1000" "+wake_lock")%Z /\
  toggleAccepted "-wifi +wake_lock=1000" ["+wake_lock"; "+"; "wake_lock"] = false.
Proof.
  destruct (toggle_guards_never_reject "-wifi +wake_lock=1000" ["+wake_lock"; "+"; "wake_lock"])
    as (H1 & H2 & H3).
  - vm_compute. right. left. reflexivity.
  - split; [exact H1|]. split; [exact H2|]. rewrite H3. vm_compute. reflexivity.
Defined.

(** ** Instances of the characterisations *)

Lemma trimmed_line_parses_alike_witness :
  ParseHistoryV2Line time.zero
    (strings.TrimSpace "  01-11 12:11:14.405 075 c4002820 volt=4170  ")
  = ParseHistoryV2Line time.zero "  01-11 12:11:14.405 075 c4002820 volt=4170  ".
Proof.
  apply (proj2 (trimmed_line_parses_alike time.zero
                  "  01-11 12:11:14.405 075 c4002820 volt=4170  ")).
Defined.

Lemma detector_answers_witness :
  DetectHistoryFormatVersion
    ("header" +:+ String Chr.nl "01-11 12:11:14.405 075 c4002820 +running") = 2%Z.
Proof.
  apply (proj2 (detector_answers
                  ("header" +:+ String Chr.nl "01-11 12:11:14.405 075 c4002820 +running"))).
  exists ["header"], "01-11 12:11:14.405 075 c4002820 +running", [].
  split; [vm_compute; reflexivity|]. split; [|vm_compute; reflexivity].
  constructor; [|constructor]. split; vm_compute; reflexivity.
Defined.

Lemma csv_value_empty_witness :
  csv.Value (ConvertToCSVEntry (set_Voltage (-4170) (set_PlugType "ac" freshEntry))) = "".
Proof.
  apply (proj2 (csv_value_empty (set_Voltage (-4170) (set_PlugType "ac" freshEntry)))).
  simpl. repeat split; lia.
Defined.

